(** * Crazy Eights: the game engine of [App.tsx], embedded and verified

    The repository is a React single-page card game (human against a
    computer opponent).  The game logic lives in the event handlers and in
    one effect of the [App] component; this file embeds them as pure
    functions on the component's state and proves, or refutes, the
    properties that the specification states about them.

    Layout: the data model of [types.ts], the helper of [constants.ts]
    that the handlers call, the handlers themselves, the vocabulary and
    the concrete states of the properties, and then the properties. *)

From Stdlib Require Import List String Bool Arith Lia Permutation.
Import ListNotations.

(* ================================================================== *)
(** ** Data model ([src/types.ts]) *)
(* ================================================================== *)

(** [type Suit = 'hearts' | 'diamonds' | 'clubs' | 'spades'] *)
Inductive Suit : Type := hearts | diamonds | clubs | spades.

(** [type Rank = 'A' | '2' | ... | '10' | 'J' | 'Q' | 'K'] *)
Inductive Rank : Type :=
  RA | R2 | R3 | R4 | R5 | R6 | R7 | R8 | R9 | R10 | RJ | RQ | RK.

(** [interface Card { id: string; suit: Suit; rank: Rank }] *)
Record Card : Type := mkCard { id : string; suit : Suit; rank : Rank }.

(** [type GameStatus] *)
Inductive GameStatus : Type :=
  dealing | player_turn | ai_turn | game_over | selecting_suit.

(** The non-null values of [winner: 'player' | 'ai' | null]. *)
Inductive Winner : Type := player | ai.

(** [interface GameState] *)
Record GameState : Type := mkGameState {
  deck        : list Card;
  discardPile : list Card;
  playerHand  : list Card;
  aiHand      : list Card;
  currentSuit : Suit;
  currentRank : Rank;
  status      : GameStatus;
  winner      : option Winner;
  lastAction  : string
}.

(** The three [useState] cells of the [App] component. *)
Record App : Type := mkApp {
  gameState    : option GameState;
  pendingEight : option Card;
  error        : option string
}.

(** The component before its first effect has run. *)
Definition mount : App :=
  {| gameState := None; pendingEight := None; error := None |}.

(* ------------------------------------------------------------------ *)
(** *** Strict equality ([===]) on the string-literal types *)
(* ------------------------------------------------------------------ *)

Definition suit_eqb (a b : Suit) : bool :=
  match a, b with
  | hearts, hearts | diamonds, diamonds | clubs, clubs | spades, spades => true
  | _, _ => false
  end.

Definition rank_index (r : Rank) : nat :=
  match r with
  | RA => 1 | R2 => 2 | R3 => 3 | R4 => 4 | R5 => 5 | R6 => 6 | R7 => 7
  | R8 => 8 | R9 => 9 | R10 => 10 | RJ => 11 | RQ => 12 | RK => 13
  end.

Definition rank_eqb (a b : Rank) : bool := rank_index a =? rank_index b.

Definition status_eqb (a b : GameStatus) : bool :=
  match a, b with
  | dealing, dealing | player_turn, player_turn | ai_turn, ai_turn
  | game_over, game_over | selecting_suit, selecting_suit => true
  | _, _ => false
  end.

(* ------------------------------------------------------------------ *)
(** *** Display strings used in [lastAction] *)
(* ------------------------------------------------------------------ *)

(** The template fragment [${card.rank}]. *)
Definition rankText (r : Rank) : string :=
  match r with
  | RA => "A" | R2 => "2" | R3 => "3" | R4 => "4" | R5 => "5" | R6 => "6"
  | R7 => "7" | R8 => "8" | R9 => "9" | R10 => "10" | RJ => "J" | RQ => "Q"
  | RK => "K"
  end.

(** The repeated ternary
    [s === 'hearts' ? '红心' : s === 'diamonds' ? '方块' : s === 'clubs' ? '梅花' : '黑桃']. *)
Definition suitText (s : Suit) : string :=
  if suit_eqb s hearts then "红心"
  else if suit_eqb s diamonds then "方块"
  else if suit_eqb s clubs then "梅花"
  else "黑桃".


Definition cat (a b : string) : string := String.append a b.
Infix "+++" := cat (at level 60, right associativity).

(* ================================================================== *)
(** ** Helpers imported from [./constants] *)
(* ================================================================== *)

(** Modelled from the spec: [isValidMove] is imported from
    [./constants], which is not among the sources.  The specification
    (section 4.2) defines it: a card is playable iff [card.rank === '8']
    OR [card.suit === currentSuit] OR [card.rank === currentRank]. *)
Definition isValidMove (card : Card) (currentSuit : Suit) (currentRank : Rank)
  : bool :=
  rank_eqb (rank card) R8
  || suit_eqb (suit card) currentSuit
  || rank_eqb (rank card) currentRank.

(* ================================================================== *)
(** ** Array primitives used by the handlers *)
(* ================================================================== *)

(** [arr.pop()] on a copy: the array without its last element, and that
    element; [None] stands for the [undefined] of an empty array. *)
Fixpoint pop {A : Type} (l : list A) : option (list A * A) :=
  match l with
  | [] => None
  | x :: rest =>
      match pop rest with
      | None => Some ([], x)
      | Some (front, z) => Some (x :: front, z)
      end
  end.

(** [arr.splice(i, 1)] as used in [initGame]: what is left of [arr]. *)
Definition spliceOut {A : Type} (i : nat) (l : list A) : list A :=
  firstn i l ++ skipn (S i) l.

(** [hand.filter(c => c.id !== card.id)] *)
Definition removeById (card : Card) (hand : list Card) : list Card :=
  filter (fun c => negb (String.eqb (id c) (id card))) hand.

(* ================================================================== *)
(** ** The handlers of [App] *)
(* ================================================================== *)

(** [setGameState(g)] and [setError(msg)]: replace one cell, keep the
    others. *)
Definition setGameState (a : App) (g : GameState) : App :=
  {| gameState := Some g; pendingEight := pendingEight a; error := error a |}.

Definition setError (a : App) (msg : string) : App :=
  {| gameState := gameState a; pendingEight := pendingEight a;
     error := Some msg |}.

(** The loop of [initGame]
    [while (deck[i] && deck[i].rank === '8') i++]
    started at index [i] on the suffix [rest = deck.slice(i)]. *)
Fixpoint skipEights (rest : list Card) (i : nat) : nat :=
  match rest with
  | [] => i
  | c :: rest' => if rank_eqb (rank c) R8 then skipEights rest' (S i) else i
  end.

(** What the [try] block of [initGame] ends in: the [Error] it threw,
    or the state it passed to [setGameState]. *)
Inductive Attempt : Type :=
| Thrown (message : string)
| Dealt (g : GameState).

(** The [try] block of [initGame].  The result of [createDeck()] (a
    helper of [./constants], not among the sources) is the argument
    [fresh].  [splice(0, 8)] takes the first eight elements out of the
    array it is called on. *)
Definition initGameBody (fresh : list Card) : Attempt :=
  let playerHand0 := firstn 8 fresh in
  let deck1 := skipn 8 fresh in
  let aiHand0 := firstn 8 deck1 in
  let deck2 := skipn 8 deck1 in
  let firstDiscardIndex := skipEights deck2 0 in
  match nth_error deck2 firstDiscardIndex with
  | None => Thrown "无法找到非8的初始弃牌。"
  | Some top =>
      let discardPile0 := [top] in
      Dealt
        {| deck := spliceOut firstDiscardIndex deck2;
           discardPile := discardPile0;
           playerHand := playerHand0;
           aiHand := aiHand0;
           currentSuit := suit top;
           currentRank := rank top;
           status := player_turn;
           winner := None;
           lastAction := "游戏开始！轮到你了。" |}
  end.

(** [initGame]: the [catch] stores the message of the thrown [Error]
    with [setError]. *)
Definition initGame (fresh : list Card) (a : App) : App :=
  match initGameBody fresh with
  | Thrown message => setError a message
  | Dealt g => setGameState a g
  end.

(** [checkWinner] *)
Definition checkWinner (state : GameState) : option Winner :=
  match playerHand state with
  | [] => Some player
  | _ :: _ =>
      match aiHand state with
      | [] => Some ai
      | _ :: _ => None
      end
  end.

(** The common tail of the player's and the computer's play:
    [if (winner) setGameState({...newState, status: 'game_over', winner})
     else setGameState(newState)]. *)
Definition settle (a : App) (newState : GameState) : App :=
  match checkWinner newState with
  | Some w =>
      setGameState a
        {| deck := deck newState;
           discardPile := discardPile newState;
           playerHand := playerHand newState;
           aiHand := aiHand newState;
           currentSuit := currentSuit newState;
           currentRank := currentRank newState;
           status := game_over;
           winner := Some w;
           lastAction := lastAction newState |}
  | None => setGameState a newState
  end.

(** [handleDraw] *)
Definition handleDraw (a : App) : App :=
  match gameState a with
  | None => a
  | Some g =>
      if negb (status_eqb (status g) player_turn) then a
      else
        match pop (deck g) with
        | None =>
            setGameState a
              {| deck := deck g;
                 discardPile := discardPile g;
                 playerHand := playerHand g;
                 aiHand := aiHand g;
                 currentSuit := currentSuit g;
                 currentRank := currentRank g;
                 status := ai_turn;
                 winner := winner g;
                 lastAction := "牌堆已空！跳过回合。" |}
        | Some (newDeck, drawnCard) =>
            let newHand := playerHand g ++ [drawnCard] in
            let canPlayDrawn :=
              isValidMove drawnCard (currentSuit g) (currentRank g) in
            setGameState a
              {| deck := newDeck;
                 discardPile := discardPile g;
                 playerHand := newHand;
                 aiHand := aiHand g;
                 currentSuit := currentSuit g;
                 currentRank := currentRank g;
                 status := if canPlayDrawn then player_turn else ai_turn;
                 winner := winner g;
                 lastAction :=
                   "你摸了一张 " +++ rankText (rank drawnCard) +++ " ("
                   +++ suitText (suit drawnCard) +++ ")。" |}
        end
  end.

(** [handlePlayCard] *)
Definition handlePlayCard (card : Card) (a : App) : App :=
  match gameState a with
  | None => a
  | Some g =>
      if negb (status_eqb (status g) player_turn) then a
      else if negb (isValidMove card (currentSuit g) (currentRank g)) then a
      else
        let newHand := removeById card (playerHand g) in
        let newDiscardPile := card :: discardPile g in
        if rank_eqb (rank card) R8 then
          {| gameState := Some
               {| deck := deck g;
                  discardPile := newDiscardPile;
                  playerHand := newHand;
                  aiHand := aiHand g;
                  currentSuit := currentSuit g;
                  currentRank := currentRank g;
                  status := selecting_suit;
                  winner := winner g;
                  lastAction := "你打出了 8！请选择一个新花色。" |};
             pendingEight := Some card;
             error := error a |}
        else
          settle a
            {| deck := deck g;
               discardPile := newDiscardPile;
               playerHand := newHand;
               aiHand := aiHand g;
               currentSuit := suit card;
               currentRank := rank card;
               status := ai_turn;
               winner := winner g;
               lastAction :=
                 "你打出了 " +++ rankText (rank card) +++ " ("
                 +++ suitText (suit card) +++ ")。" |}
  end.

(** [handleSuitSelection] *)
Definition handleSuitSelection (s : Suit) (a : App) : App :=
  match gameState a, pendingEight a with
  | Some g, Some _ =>
      {| gameState := Some
           {| deck := deck g;
              discardPile := discardPile g;
              playerHand := playerHand g;
              aiHand := aiHand g;
              currentSuit := s;
              currentRank := R8;
              status := ai_turn;
              winner := winner g;
              lastAction := "花色已更改为 " +++ suitText s +++ "！" |};
         pendingEight := None;
         error := error a |}
  | _, _ => a
  end.

(* ------------------------------------------------------------------ *)
(** *** The computer's turn (the [useEffect] under "AI Logic") *)
(* ------------------------------------------------------------------ *)

(** [suitCounts] is a JS object used as a counter.  [Object.keys] lists
    its keys in insertion order, so it is an association list here: the
    order of the keys is the order in which the suits were first met. *)
Definition SuitCounts : Type := list (Suit * nat).

(** [suitCounts[s]], with [None] for [undefined]. *)
Fixpoint getCount (acc : SuitCounts) (s : Suit) : option nat :=
  match acc with
  | [] => None
  | (k, n) :: rest => if suit_eqb k s then Some n else getCount rest s
  end.

(** [acc[s] = (acc[s] || 0) + 1] *)
Fixpoint bump (acc : SuitCounts) (s : Suit) : SuitCounts :=
  match acc with
  | [] => [(s, 0 + 1)]
  | (k, n) :: rest =>
      if suit_eqb k s then (k, n + 1) :: rest else (k, n) :: bump rest s
  end.

(** [newHand.reduce((acc, c) => { acc[c.suit] = ...; return acc }, {})] *)
Definition countSuits (newHand : list Card) : SuitCounts :=
  fold_left (fun acc c => bump acc (suit c)) newHand [].

(** [Object.keys(suitCounts)] *)
Definition keys (acc : SuitCounts) : list Suit := map fst acc.

(** The number read by the comparator; every key it is asked about is
    present, the default is never used. *)
Definition countOf (acc : SuitCounts) (s : Suit) : nat :=
  match getCount acc s with Some n => n | None => 0 end.

(** [keys.sort((a, b) => suitCounts[b] - suitCounts[a])]: a stable sort
    ([Array.prototype.sort] is stable), descending in the count.  For a
    comparator that is a total preorder the result of a stable sort is
    unique; it is computed here by insertion, where an element stays in
    front of the elements that compare equal and came after it. *)
Fixpoint insertDesc (acc : SuitCounts) (a : Suit) (sorted : list Suit)
  : list Suit :=
  match sorted with
  | [] => [a]
  | b :: rest =>
      (* comparator(a, b) = count b - count a <= 0: [a] stays first *)
      if countOf acc b <=? countOf acc a then a :: b :: rest
      else b :: insertDesc acc a rest
  end.

Definition sortDesc (acc : SuitCounts) (ks : list Suit) : list Suit :=
  fold_right (insertDesc acc) [] ks.

(** [Object.keys(suitCounts).sort(...)[0] || 'hearts'] *)
Definition pickSuit (newHand : list Card) : Suit :=
  let suitCounts := countSuits newHand in
  match sortDesc suitCounts (keys suitCounts) with
  | [] => hearts
  | s :: _ => s
  end.

(** [const cardToPlay = playable.find(c => c.rank !== '8') || playable[0]],
    on a [playable] whose first element is [first]. *)
Definition chooseCard (first : Card) (playable : list Card) : Card :=
  match find (fun c => negb (rank_eqb (rank c) R8)) playable with
  | Some nonEight => nonEight
  | None => first
  end.

(** The body of the timer callback.  The effect installs the timer only
    when [gameState?.status === 'ai_turn'], and every change of
    [gameState] cancels it, so the callback runs on the state that the
    effect saw. *)
Definition aiTurn (a : App) : App :=
  match gameState a with
  | None => a
  | Some g =>
      if negb (status_eqb (status g) ai_turn) then a
      else
        let playable :=
          filter (fun c => isValidMove c (currentSuit g) (currentRank g))
                 (aiHand g) in
        match playable with
        | first :: _ =>
            let cardToPlay := chooseCard first playable in
            let newHand := removeById cardToPlay (aiHand g) in
            let newDiscardPile := cardToPlay :: discardPile g in
            let eight := rank_eqb (rank cardToPlay) R8 in
            let nextSuit :=
              if eight then pickSuit newHand else suit cardToPlay in
            let nextAction :=
              if eight then
                "AI 打出了 8 并将花色更改为 " +++ suitText nextSuit +++ "！"
              else
                "AI 打出了 " +++ rankText (rank cardToPlay) +++ " ("
                +++ suitText (suit cardToPlay) +++ ")。" in
            settle a
              {| deck := deck g;
                 discardPile := newDiscardPile;
                 playerHand := playerHand g;
                 aiHand := newHand;
                 currentSuit := nextSuit;
                 currentRank := rank cardToPlay;
                 status := player_turn;
                 winner := winner g;
                 lastAction := nextAction |}
        | [] =>
            match pop (deck g) with
            | Some (newDeck, drawn) =>
                let newHand := aiHand g ++ [drawn] in
                let canPlayDrawn :=
                  isValidMove drawn (currentSuit g) (currentRank g) in
                setGameState a
                  {| deck := newDeck;
                     discardPile := discardPile g;
                     playerHand := playerHand g;
                     aiHand := newHand;
                     currentSuit := currentSuit g;
                     currentRank := currentRank g;
                     status := if canPlayDrawn then ai_turn else player_turn;
                     winner := winner g;
                     lastAction := "AI 摸了一张牌。" |}
            | None =>
                setGameState a
                  {| deck := deck g;
                     discardPile := discardPile g;
                     playerHand := playerHand g;
                     aiHand := aiHand g;
                     currentSuit := currentSuit g;
                     currentRank := currentRank g;
                     status := player_turn;
                     winner := winner g;
                     lastAction := "AI 跳过回合（牌堆已空）。" |}
            end
        end
  end.

(* ------------------------------------------------------------------ *)
(** *** The render *)
(* ------------------------------------------------------------------ *)

(** The playable indicator of the render:
    [isPlayable={gameState.status === 'player_turn' && isValidMove(card, ...)}]. *)
Definition isPlayable (g : GameState) (card : Card) : bool :=
  status_eqb (status g) player_turn
  && isValidMove card (currentSuit g) (currentRank g).

(* ================================================================== *)
(** ** Runs of the engine *)
(* ================================================================== *)

(** The four operations a running game offers. *)
Inductive Op : Type :=
| Draw
| Play (card : Card)
| ChooseSuit (s : Suit)
| Resolve.

Definition step (o : Op) (a : App) : App :=
  match o with
  | Draw => handleDraw a
  | Play card => handlePlayCard card a
  | ChooseSuit s => handleSuitSelection s a
  | Resolve => aiTurn a
  end.

(** Apply the operations of [ops] from left to right. *)
Definition run (ops : list Op) (a : App) : App :=
  fold_left (fun acc o => step o acc) ops a.

(** The four zones of a state, as one list. *)
Definition zones (g : GameState) : list Card :=
  deck g ++ discardPile g ++ playerHand g ++ aiHand g.

(* ================================================================== *)
(** ** Vocabulary of the properties *)
(* ================================================================== *)

(** The face of a card: what is printed on it. *)
Definition face (c : Card) : Suit * Rank := (suit c, rank c).

(** Modelled from the spec: [createDeck] is a helper of [./constants],
    which is not among the sources.  The specification (sections 3 and
    4.1) says what it returns: 52 cards, exactly one per (suit, rank)
    pair, each with an identifier that no other card of the deck has, in
    some order.  With 4 suits and 13 ranks, 52 cards with pairwise
    different faces are one card per pair. *)
Definition isFreshDeck (d : list Card) : Prop :=
  NoDup (map id d) /\ NoDup (map face d) /\ List.length d = 52.

(** States reachable from initialization by the engine operations. *)
Inductive reachable : App -> Prop :=
| reach_init (fresh : list Card) :
    isFreshDeck fresh -> reachable (initGame fresh mount)
| reach_step (o : Op) (a : App) :
    reachable a -> reachable (step o a).

(** The number of cards of suit [s] in a hand. *)
Definition suitCount (s : Suit) (hand : list Card) : nat :=
  List.length (filter (fun c => suit_eqb (suit c) s) hand).

(** In a running game an eight is pending exactly while the status is
    [selecting_suit]. *)
Definition pendingConsistent (a : App) : Prop :=
  match gameState a with
  | None => pendingEight a = None
  | Some g => pendingEight a <> None <-> status g = selecting_suit
  end.

(** In a running game the status is [game_over] exactly when there is
    a winner. *)
Definition winnerConsistent (a : App) : Prop :=
  match gameState a with
  | None => True
  | Some g => status g = game_over <-> winner g <> None
  end.

(** The head of a list dominates the rest. *)
Definition headMax (acc : SuitCounts) (l : list Suit) : Prop :=
  match l with
  | [] => True
  | h :: rest => forall x, In x rest -> countOf acc x <= countOf acc h
  end.

(** The first card of the hand, in hand order, that is valid and not an
    eight. *)
Definition firstPlayableNonEight (g : GameState) : option Card :=
  find (fun c => isValidMove c (currentSuit g) (currentRank g)
                 && negb (rank_eqb (rank c) R8))
       (aiHand g).

(** The first card of the hand, in hand order, that is valid. *)
Definition firstPlayable (g : GameState) : option Card :=
  find (fun c => isValidMove c (currentSuit g) (currentRank g)) (aiHand g).

(** The specification's reading of "the first card that is not an eight,
    scanning from the top of the deck", the top being the end that
    [pop] draws from: the last such card of the array. *)
Definition topNonEight (d : list Card) : option Card :=
  find (fun c => negb (rank_eqb (rank c) R8)) (rev d).

(* ================================================================== *)
(** ** Deciders for concrete states *)
(* ================================================================== *)

(** A boolean test for lists without repetition, to settle [NoDup] on
    concrete decks by computation. *)
Fixpoint distinctb {A : Type} (eqb : A -> A -> bool) (l : list A) : bool :=
  match l with
  | [] => true
  | x :: rest => negb (existsb (eqb x) rest) && distinctb eqb rest
  end.

Definition face_eqb (p q : Suit * Rank) : bool :=
  suit_eqb (fst p) (fst q) && rank_eqb (snd p) (snd q).

(** [freshb] decides [isFreshDeck]. *)
Definition freshb (d : list Card) : bool :=
  distinctb String.eqb (map id d)
  && distinctb face_eqb (map face d)
  && (List.length d =? 52).

Definition card_eqb (c d : Card) : bool :=
  String.eqb (id c) (id d) && suit_eqb (suit c) (suit d)
  && rank_eqb (rank c) (rank d).

(** Take the first occurrence of [x] out of [l]. *)
Fixpoint takeOut (x : Card) (l : list Card) : option (list Card) :=
  match l with
  | [] => None
  | y :: rest =>
      if card_eqb x y then Some rest
      else match takeOut x rest with
           | Some rest' => Some (y :: rest')
           | None => None
           end
  end.

Fixpoint permb (l l' : list Card) : bool :=
  match l with
  | [] => match l' with [] => true | _ :: _ => false end
  | x :: rest =>
      match takeOut x l' with
      | Some l'' => permb rest l''
      | None => false
      end
  end.

(* ================================================================== *)
(** ** Concrete decks and states *)
(* ================================================================== *)

Definition suitKey (s : Suit) : string :=
  match s with
  | hearts => "hearts" | diamonds => "diamonds"
  | clubs => "clubs" | spades => "spades"
  end.

(** The card of a face, with an identifier built from the face. *)
Definition cardOf (s : Suit) (r : Rank) : Card :=
  {| id := rankText r +++ "-" +++ suitKey s; suit := s; rank := r |}.

(** One possible result of [createDeck()]: index 0 first.  The player is
    dealt the hearts from ace to eight, the computer high spades and
    clubs; the card at index 16 is the nine of hearts. *)
Definition sampleDeck : list Card :=
  map (cardOf hearts) [RA; R2; R3; R4; R5; R6; R7; R8]
  ++ map (cardOf spades) [R9; R10; RJ; RQ; RK]
  ++ map (cardOf clubs) [R9; R10; RJ]
  ++ [cardOf hearts R9]
  ++ map (cardOf hearts) [R10; RJ; RQ; RK]
  ++ map (cardOf spades) [RA; R2; R3; R4; R5; R6; R7; R8]
  ++ map (cardOf clubs) [RA; R2; R3; R4; R5; R6; R7; R8]
  ++ map (cardOf diamonds) [RA; R2; R3; R4; R5; R6; R7; R8]
  ++ map (cardOf diamonds) [RK; RQ; RJ; R10; R9]
  ++ map (cardOf clubs) [RK; RQ].

(** The game started from [sampleDeck]. *)
Definition sampleStart : App := initGame sampleDeck mount.

(** A state on the player's turn with deck [d], against the target five
    of hearts. *)
Definition lastCardState (d : list Card) : App :=
  {| gameState := Some
       {| deck := d; discardPile := [cardOf hearts R5];
          playerHand := [cardOf clubs R2]; aiHand := [cardOf clubs R3];
          currentSuit := hearts; currentRank := R5; status := player_turn;
          winner := None; lastAction := EmptyString |};
     pendingEight := None; error := None |}.

(** A state on the computer's turn: the computer holds the eight of
    clubs, two diamonds and a spade, the target is the five of hearts. *)
Definition eightOnlyState : App :=
  {| gameState := Some
       {| deck := [cardOf spades RK]; discardPile := [cardOf hearts R5];
          playerHand := [cardOf clubs R2];
          aiHand := [cardOf diamonds R2; cardOf clubs R8;
                     cardOf spades R3; cardOf diamonds R9];
          currentSuit := hearts; currentRank := R5; status := ai_turn;
          winner := None; lastAction := EmptyString |};
     pendingEight := None; error := None |}.

(** The player's hearts from ace to seven, each followed by a turn of
    the computer (which can only draw), then the eight of hearts, the
    player's last card, and the choice of spades. *)
Definition lastEightTrace : list Op :=
  flat_map (fun r => [Play (cardOf hearts r); Resolve])
           [RA; R2; R3; R4; R5; R6; R7]
  ++ [Play (cardOf hearts R8); ChooseSuit spades].

(* ================================================================== *)
(** ** What the page lets happen *)
(* ================================================================== *)

(** The moves of the game that the render of a running game offers, as
    operations: the draw pile, rendered with [onClick={handleDraw}]
    only when [gameState.deck.length > 0]; every card of the player's
    hand, with [onClick={() => handlePlayCard(card)}]; the buttons of
    [SuitSelector], one per element of [SUITS], rendered only when
    [gameState.status === 'selecting_suit']; and the timer of the AI
    effect, installed only when [gameState.status === 'ai_turn'].
    [SUITS] is a constant of [./constants], which is not among the
    sources: it is the argument [suits].  These are the handlers of the
    four operations only.  The render attaches one more handler, the
    restart button with [onClick={initGame}] (in the header of every
    running game, and as [onRestart] of the [GameOver] overlay): it
    abandons the game for a new one and is the [Restart] of
    [PageEvent] below. *)
Definition events (suits : list Suit) (g : GameState) : list Op :=
  (match deck g with [] => [] | _ :: _ => [Draw] end)
  ++ map Play (playerHand g)
  ++ (if status_eqb (status g) selecting_suit
      then map ChooseSuit suits else [])
  ++ (if status_eqb (status g) ai_turn then [Resolve] else []).

(** The states of one game, started from the deck [fresh] and driven
    by the moves that the page offers, with no restart. *)
Inductive driven (suits : list Suit) (fresh : list Card) : App -> Prop :=
| driven_init :
    isFreshDeck fresh -> driven suits fresh (initGame fresh mount)
| driven_step (o : Op) (a : App) (g : GameState) :
    driven suits fresh a ->
    gameState a = Some g -> In o (events suits g) ->
    driven suits fresh (step o a).

(** Everything that the page of a running game can do to the state: a
    move of the game, or a click on the restart button, which calls
    [initGame]; [fresh] is what [createDeck()] returns at that click. *)
Inductive PageEvent : Type :=
| Move (o : Op)
| Restart (fresh : list Card).

Definition pageStep (e : PageEvent) (a : App) : App :=
  match e with
  | Move o => step o a
  | Restart fresh => initGame fresh a
  end.

(** What the page of a running game in state [g] offers: the moves of
    [events], and the restart button of the header, which is always
    rendered. *)
Definition offered (suits : list Suit) (g : GameState) (e : PageEvent)
  : Prop :=
  match e with
  | Move o => In o (events suits g)
  | Restart _ => True
  end.

(** The rule of the game in the words of the specification: a card
    matches the target when it is an eight, or has the target's suit, or
    has the target's rank. *)
Definition matchesTarget (c : Card) (s : Suit) (r : Rank) : Prop :=
  rank c = R8 \/ suit c = s \/ rank c = r.

(** The target follows the card on top of the discard pile: outside
    [selecting_suit] the target rank is that card's rank and, unless the
    card is an eight, the target suit is its suit; in [selecting_suit]
    that card is the pending eight. *)
Definition targetOnTop (a : App) : Prop :=
  match gameState a with
  | None => True
  | Some g =>
      match discardPile g with
      | [] => False
      | top :: _ =>
          if status_eqb (status g) selecting_suit
          then rank top = R8 /\ pendingEight a = Some top
          else currentRank g = rank top
               /\ (rank top <> R8 -> currentSuit g = suit top)
      end
  end.

(** A state on the computer's turn in which the computer holds one
    card, the eight of clubs. *)
Definition computerLastEight : App :=
  {| gameState := Some
       {| deck := []; discardPile := [cardOf hearts R5];
          playerHand := [cardOf hearts R7]; aiHand := [cardOf clubs R8];
          currentSuit := hearts; currentRank := R5;
          status := ai_turn; winner := None;
          lastAction := EmptyString |};
     pendingEight := None; error := None |}.

(** A state on the player's turn in which the player holds one card,
    the seven of hearts. *)
Definition playerLastSeven : App :=
  {| gameState := Some
       {| deck := []; discardPile := [cardOf hearts R5];
          playerHand := [cardOf hearts R7]; aiHand := [cardOf clubs R3];
          currentSuit := hearts; currentRank := R5;
          status := player_turn; winner := None;
          lastAction := EmptyString |};
     pendingEight := None; error := None |}.

(** The game of [lastEightTrace], one turn of the computer later. *)
Definition lateWin : App := step Resolve (run lastEightTrace sampleStart).

(* ================================================================== *)
(** * Properties *)
(* ================================================================== *)

(* ================================================================== *)
(** ** Equality tests *)
(* ================================================================== *)

Lemma suit_eqb_spec (a b : Suit) : reflect (a = b) (suit_eqb a b).
Proof. destruct a, b; simpl; constructor; congruence. Qed.

Lemma rank_eqb_spec (a b : Rank) : reflect (a = b) (rank_eqb a b).
Proof. destruct a, b; unfold rank_eqb; simpl; constructor; congruence. Qed.

Lemma status_eqb_spec (a b : GameStatus) : reflect (a = b) (status_eqb a b).
Proof. destruct a, b; simpl; constructor; congruence. Qed.

Lemma suit_eqb_eq (a b : Suit) : suit_eqb a b = true <-> a = b.
Proof. destruct (suit_eqb_spec a b); split; congruence. Qed.

Lemma rank_eqb_eq (a b : Rank) : rank_eqb a b = true <-> a = b.
Proof. destruct (rank_eqb_spec a b); split; congruence. Qed.

Lemma rank_eqb_neq (a b : Rank) : rank_eqb a b = false <-> a <> b.
Proof. destruct (rank_eqb_spec a b); split; congruence. Qed.

Lemma status_eqb_eq (a b : GameStatus) : status_eqb a b = true <-> a = b.
Proof. destruct (status_eqb_spec a b); split; congruence. Qed.

Lemma status_eqb_neq (a b : GameStatus) : status_eqb a b = false <-> a <> b.
Proof. destruct (status_eqb_spec a b); split; congruence. Qed.

(* ================================================================== *)
(** ** Basic facts about the primitives *)
(* ================================================================== *)

Lemma distinctb_NoDup {A : Type} (eqb : A -> A -> bool) (l : list A) :
  (forall x y, eqb x y = true <-> x = y) ->
  distinctb eqb l = true -> NoDup l.
Proof.
  intros Heq. induction l as [|x rest IH]; simpl; intros H.
  - constructor.
  - apply andb_true_iff in H as [Hx Hrest].
    constructor; [|auto].
    intros Hin. apply negb_true_iff in Hx.
    assert (existsb (eqb x) rest = true) as E; [|congruence].
    apply existsb_exists. exists x. split; [assumption|]. now apply Heq.
Qed.

Lemma face_eqb_eq (p q : Suit * Rank) : face_eqb p q = true <-> p = q.
Proof.
  destruct p as [s r], q as [s' r']. unfold face_eqb. simpl.
  rewrite andb_true_iff, suit_eqb_eq, rank_eqb_eq.
  split; [intros [-> ->]; reflexivity | intros [= -> ->]; auto].
Qed.

Lemma freshb_sound (d : list Card) : freshb d = true -> isFreshDeck d.
Proof.
  unfold freshb, isFreshDeck. intros H.
  apply andb_true_iff in H as [H Hlen].
  apply andb_true_iff in H as [Hid Hface].
  repeat split.
  - eapply distinctb_NoDup; [apply String.eqb_eq | exact Hid].
  - eapply distinctb_NoDup; [apply face_eqb_eq | exact Hface].
  - now apply Nat.eqb_eq.
Qed.

Lemma sampleDeck_fresh : isFreshDeck sampleDeck.
Proof. apply freshb_sound. vm_compute. reflexivity. Qed.

Lemma pop_nil_inv {A : Type} (l : list A) : pop l = None -> l = [].
Proof.
  destruct l as [|x rest]; [reflexivity|]. simpl.
  destruct (pop rest) as [[front z]|]; discriminate.
Qed.

Lemma pop_snoc {A : Type} (l : list A) (x : A) : pop (l ++ [x]) = Some (l, x).
Proof.
  induction l as [|y l IH]; simpl; [reflexivity|]. now rewrite IH.
Qed.

Lemma pop_some_inv {A : Type} (l front : list A) (x : A) :
  pop l = Some (front, x) -> l = front ++ [x].
Proof.
  revert front. induction l as [|y l IH]; simpl; intros front H.
  - discriminate.
  - destruct (pop l) as [[f z]|] eqn:E.
    + injection H as <- <-. simpl. f_equal. now apply IH.
    + injection H as <- <-. apply pop_nil_inv in E. now subst.
Qed.

(* ================================================================== *)
(** ** The legality predicate and its three call sites *)
(* ================================================================== *)

Lemma isValidMove_iff (c : Card) (s : Suit) (r : Rank) :
  isValidMove c s r = true <-> rank c = R8 \/ suit c = s \/ rank c = r.
Proof.
  unfold isValidMove.
  rewrite !orb_true_iff, !rank_eqb_eq, suit_eqb_eq. tauto.
Qed.

Lemma isPlayable_iff (g : GameState) (card : Card) :
  isPlayable g card = true <->
  status g = player_turn
  /\ isValidMove card (currentSuit g) (currentRank g) = true.
Proof.
  unfold isPlayable. now rewrite andb_true_iff, status_eqb_eq.
Qed.

(** Unfold a handler on a state whose [gameState] and [status] are
    known. *)
Ltac enter h Hg Hs :=
  unfold h; rewrite Hg; rewrite Hs; cbn [status_eqb negb].

Lemma play_rejects (a : App) (g : GameState) (card : Card) :
  gameState a = Some g ->
  status g <> player_turn
  \/ isValidMove card (currentSuit g) (currentRank g) = false ->
  handlePlayCard card a = a.
Proof.
  intros Hg [Hs | Hv]; unfold handlePlayCard; rewrite Hg.
  - apply status_eqb_neq in Hs. now rewrite Hs.
  - rewrite Hv. cbn [negb]. now destruct (negb _).
Qed.

Lemma play_accepts (a : App) (g : GameState) (card : Card) :
  gameState a = Some g ->
  status g = player_turn ->
  isValidMove card (currentSuit g) (currentRank g) = true ->
  exists g',
    gameState (handlePlayCard card a) = Some g'
    /\ discardPile g' = card :: discardPile g
    /\ playerHand g' = removeById card (playerHand g)
    /\ deck g' = deck g
    /\ aiHand g' = aiHand g.
Proof.
  intros Hg Hs Hv. enter handlePlayCard Hg Hs. rewrite Hv. cbn [negb].
  destruct (rank_eqb (rank card) R8).
  - eexists. split; [reflexivity|]. simpl. auto.
  - unfold settle. destruct (checkWinner _); eexists;
      (split; [reflexivity|]); simpl; auto.
Qed.

(* ================================================================== *)
(** ** Drawing *)
(* ================================================================== *)

Lemma draw_nonempty (a : App) (g : GameState) (rest : list Card) (top : Card) :
  gameState a = Some g -> status g = player_turn ->
  deck g = rest ++ [top] ->
  exists g',
    handleDraw a = setGameState a g'
    /\ deck g' = rest
    /\ playerHand g' = playerHand g ++ [top]
    /\ status g' = (if isValidMove top (currentSuit g) (currentRank g)
                    then player_turn else ai_turn)
    /\ discardPile g' = discardPile g
    /\ aiHand g' = aiHand g
    /\ currentSuit g' = currentSuit g
    /\ currentRank g' = currentRank g
    /\ winner g' = winner g.
Proof.
  intros Hg Hs Hd. enter handleDraw Hg Hs.
  rewrite Hd, pop_snoc. eexists. split; [reflexivity|]. simpl.
  repeat split.
Qed.

Lemma draw_empty (a : App) (g : GameState) :
  gameState a = Some g -> status g = player_turn ->
  deck g = [] ->
  exists g',
    handleDraw a = setGameState a g'
    /\ deck g' = []
    /\ playerHand g' = playerHand g
    /\ status g' = ai_turn
    /\ discardPile g' = discardPile g
    /\ aiHand g' = aiHand g
    /\ currentSuit g' = currentSuit g
    /\ currentRank g' = currentRank g
    /\ winner g' = winner g.
Proof.
  intros Hg Hs Hd. enter handleDraw Hg Hs.
  rewrite Hd. simpl. eexists. split; [reflexivity|]. simpl.
  repeat split.
Qed.

(** Every list is empty or ends in a last element. *)
Lemma snoc_cases {A : Type} (l : list A) :
  l = [] \/ exists front x, l = front ++ [x].
Proof.
  destruct (pop l) as [[front x]|] eqn:E.
  - right. exists front, x. now apply pop_some_inv.
  - left. now apply pop_nil_inv.
Qed.

(** C6. On the player's turn, drawing from a non-empty deck removes the
    top card (the last element of [deck]) and appends it to the player's
    hand, and the status stays [player_turn] if that card is valid against
    the current target and becomes [ai_turn] otherwise; drawing from an
    empty deck sets the status to [ai_turn] and leaves all four zones as
    they were. *)
Theorem C6_draw (a : App) (g : GameState) :
  gameState a = Some g ->
  status g = player_turn ->
  (forall rest top,
      deck g = rest ++ [top] ->
      exists g',
        gameState (handleDraw a) = Some g'
        /\ deck g' = rest
        /\ playerHand g' = playerHand g ++ [top]
        /\ status g' = (if isValidMove top (currentSuit g) (currentRank g)
                        then player_turn else ai_turn))
  /\ (deck g = [] ->
      exists g',
        gameState (handleDraw a) = Some g'
        /\ status g' = ai_turn
        /\ deck g' = deck g
        /\ discardPile g' = discardPile g
        /\ playerHand g' = playerHand g
        /\ aiHand g' = aiHand g).
Proof.
  intros Hg Hs. split.
  - intros rest top Hd.
    destruct (draw_nonempty a g rest top Hg Hs Hd)
      as (g' & E & H1 & H2 & H3 & _).
    exists g'. rewrite E. auto.
  - intros Hd.
    destruct (draw_empty a g Hg Hs Hd) as (g' & E & H1 & H2 & H3 & H4 & H5 & _).
    exists g'. rewrite E. simpl. repeat split; congruence.
Qed.

Lemma C6_draw_witness :
  (exists g', gameState (handleDraw (lastCardState [cardOf spades RK])) = Some g'
              /\ deck g' = []
              /\ playerHand g' = [cardOf clubs R2; cardOf spades RK]
              /\ status g' = ai_turn)
  /\ (exists g', gameState (handleDraw (lastCardState []))
                 = Some g'
                 /\ status g' = ai_turn /\ deck g' = []).
Proof.
  split.
  - destruct (C6_draw (lastCardState [cardOf spades RK]) _
                eq_refl eq_refl) as [H _].
    destruct (H [] (cardOf spades RK) eq_refl) as (g' & E & H1 & H2 & H3).
    exists g'. auto.
  - destruct (C6_draw (lastCardState []) _
                eq_refl eq_refl) as [_ H].
    destruct (H eq_refl) as (g' & E & H1 & H2 & _).
    exists g'. auto.
Defined.

(** C10. On the player's turn, drawing leaves the discard pile, the
    computer's hand, the target suit and rank and the winner as they
    were (and so do the pending eight and the error of the component);
    only deck, player's hand, status and last action can change. *)
Theorem C10_draw_frame (a : App) (g : GameState) :
  gameState a = Some g ->
  status g = player_turn ->
  exists g',
    gameState (handleDraw a) = Some g'
    /\ discardPile g' = discardPile g
    /\ aiHand g' = aiHand g
    /\ currentSuit g' = currentSuit g
    /\ currentRank g' = currentRank g
    /\ winner g' = winner g
    /\ pendingEight (handleDraw a) = pendingEight a
    /\ error (handleDraw a) = error a.
Proof.
  intros Hg Hs.
  destruct (snoc_cases (deck g)) as [Hd | (rest & top & Hd)].
  - destruct (draw_empty a g Hg Hs Hd) as (g' & E & ? & ? & ? & ? & ? & ? & ? & ?).
    exists g'. rewrite E. simpl. auto 10.
  - destruct (draw_nonempty a g rest top Hg Hs Hd)
      as (g' & E & ? & ? & ? & ? & ? & ? & ? & ?).
    exists g'. rewrite E. simpl. auto 10.
Qed.

Lemma C10_draw_frame_witness :
  exists g',
    gameState (handleDraw sampleStart) = Some g'
    /\ discardPile g' = [cardOf hearts R9]
    /\ currentSuit g' = hearts
    /\ currentRank g' = R9
    /\ winner g' = None.
Proof.
  destruct (C10_draw_frame sampleStart _ eq_refl eq_refl)
    as (g' & E & H1 & H2 & H3 & H4 & H5 & _).
  exists g'. auto.
Defined.

(* ================================================================== *)
(** ** The player's play *)
(* ================================================================== *)

(** The state that [settle] stores: the new state, or the new state
    turned into [game_over] with its winner. *)
Lemma settle_cases (a : App) (n : GameState) :
  exists g',
    settle a n = setGameState a g'
    /\ deck g' = deck n /\ discardPile g' = discardPile n
    /\ playerHand g' = playerHand n /\ aiHand g' = aiHand n
    /\ currentSuit g' = currentSuit n /\ currentRank g' = currentRank n
    /\ ((checkWinner n = None /\ g' = n)
        \/ (exists w, checkWinner n = Some w
                      /\ status g' = game_over /\ winner g' = Some w)).
Proof.
  unfold settle. destruct (checkWinner n) as [w|] eqn:E.
  - eexists. split; [reflexivity|]. simpl. repeat split. right. eauto.
  - exists n. repeat split. now left.
Qed.

(** C2, as the code has it. Playing a card returns the state it was
    given, with no error recorded, whenever the status is not
    [player_turn] or [isValidMove] rejects the card.  The handler does not
    look for the card in the player's hand. *)
Theorem C2_play_noop (a : App) (g : GameState) (card : Card) :
  gameState a = Some g ->
  status g <> player_turn
  \/ isValidMove card (currentSuit g) (currentRank g) = false ->
  handlePlayCard card a = a /\ error (handlePlayCard card a) = error a.
Proof.
  intros Hg H. rewrite (play_rejects a g card Hg H). auto.
Qed.

Lemma C2_play_noop_witness :
  handlePlayCard (cardOf hearts RA) (handleDraw sampleStart)
  = handleDraw sampleStart
  /\ handlePlayCard (cardOf diamonds RK) sampleStart = sampleStart.
Proof.
  split.
  - apply (C2_play_noop (handleDraw sampleStart) _ (cardOf hearts RA) eq_refl).
    left. vm_compute. discriminate.
  - apply (C2_play_noop sampleStart _ (cardOf diamonds RK) eq_refl).
    right. reflexivity.
Defined.

(** C2, as stated, fails. In the game started from [sampleDeck] it is the
    player's turn and the target is the nine of hearts.  The nine of
    spades is in the computer's hand, not in the player's; it matches the
    target's rank, and playing it is not a no-op: it lands on the discard
    pile. *)
Lemma C2_counterexample :
  exists g g',
    gameState sampleStart = Some g
    /\ status g = player_turn
    /\ existsb (fun c => String.eqb (id c) (id (cardOf spades R9)))
               (playerHand g) = false
    /\ gameState (handlePlayCard (cardOf spades R9) sampleStart) = Some g'
    /\ discardPile g' = cardOf spades R9 :: discardPile g
    /\ handlePlayCard (cardOf spades R9) sampleStart <> sampleStart.
Proof.
  do 2 eexists.
  split; [reflexivity|]. split; [reflexivity|]. split; [reflexivity|].
  split; [reflexivity|]. split; [reflexivity|].
  intros H.
  apply (f_equal (fun a => option_map (fun g => List.length (discardPile g))
                                      (gameState a))) in H.
  vm_compute in H. discriminate.
Qed.

(* ================================================================== *)
(** ** Where [selecting_suit] comes from *)
(* ================================================================== *)

Lemma aiTurn_status (a : App) (g : GameState) :
  gameState a = Some g -> status g = ai_turn ->
  exists g',
    gameState (aiTurn a) = Some g'
    /\ (status g' = player_turn \/ status g' = ai_turn
        \/ status g' = game_over)
    /\ pendingEight (aiTurn a) = pendingEight a.
Proof.
  intros Hg Hs. enter aiTurn Hg Hs.
  destruct (filter _ (aiHand g)) as [|first rest].
  - destruct (pop (deck g)) as [[d x]|]; eexists;
      (split; [reflexivity|]); simpl; [|auto].
    destruct (isValidMove x _ _); auto.
  - match goal with |- context [settle a ?n] =>
      destruct (settle_cases a n) as (g' & E & _ & _ & _ & _ & _ & _ & Hc)
    end.
    rewrite E. exists g'. split; [reflexivity|]. split; [|reflexivity].
    destruct Hc as [[_ ->] | (w & _ & Hgo & _)]; simpl; auto.
Qed.

Lemma aiTurn_idle (a : App) (g : GameState) :
  gameState a = Some g -> status g <> ai_turn -> aiTurn a = a.
Proof.
  intros Hg Hs. unfold aiTurn. rewrite Hg.
  apply status_eqb_neq in Hs. now rewrite Hs.
Qed.

Lemma selecting_suit_origin (o : Op) (a : App) (g g' : GameState) :
  gameState a = Some g ->
  status g <> selecting_suit ->
  gameState (step o a) = Some g' ->
  status g' = selecting_suit ->
  exists card, o = Play card /\ rank card = R8 /\ status g = player_turn.
Proof.
  intros Hg Hs Hg' Hs'. destruct o as [|card|s|]; simpl in Hg'.
  - exfalso. unfold handleDraw in Hg'. rewrite Hg in Hg'.
    destruct (status_eqb (status g) player_turn); simpl in Hg';
      [|congruence].
    destruct (pop (deck g)) as [[d x]|]; simpl in Hg'; injection Hg' as <-;
      simpl in Hs'; [|discriminate].
    destruct (isValidMove x _ _); discriminate.
  - unfold handlePlayCard in Hg'. rewrite Hg in Hg'.
    destruct (status_eqb_spec (status g) player_turn) as [Hp|Hp];
      simpl in Hg'; [|congruence].
    destruct (isValidMove card _ _); simpl in Hg'; [|congruence].
    destruct (rank_eqb_spec (rank card) R8) as [H8|H8].
    + exists card. auto.
    + exfalso.
      match type of Hg' with context [settle a ?n] =>
        destruct (settle_cases a n) as (k & E & _ & _ & _ & _ & _ & _ & Hc)
      end.
      rewrite E in Hg'. simpl in Hg'. injection Hg' as <-.
      destruct Hc as [[_ ->] | (w & _ & Hgo & _)]; simpl in Hs'; congruence.
  - exfalso. unfold handleSuitSelection in Hg'. rewrite Hg in Hg'.
    destruct (pendingEight a); simpl in Hg'; [|congruence].
    injection Hg' as <-. discriminate.
  - exfalso. destruct (status_eqb_spec (status g) ai_turn) as [Ha|Ha].
    + destruct (aiTurn_status a g Hg Ha) as (k & E & Hk & _).
      rewrite E in Hg'. injection Hg' as <-.
      destruct Hk as [Hk | [Hk | Hk]]; congruence.
    + rewrite (aiTurn_idle a g Hg Ha) in Hg'. congruence.
Qed.

(** C9. The computer's turn never produces status [selecting_suit]: run
    on a state with status [ai_turn] it ends in [player_turn], [ai_turn]
    or [game_over] (and leaves the pending eight alone), and on any
    other state it changes nothing.  A step that enters [selecting_suit]
    is the player's play of an eight on the player's turn. *)
Theorem C9_selecting_suit_only_from_player :
  (forall a g,
      gameState a = Some g -> status g = ai_turn ->
      exists g',
        gameState (aiTurn a) = Some g'
        /\ (status g' = player_turn \/ status g' = ai_turn
            \/ status g' = game_over)
        /\ pendingEight (aiTurn a) = pendingEight a)
  /\ (forall a g,
         gameState a = Some g -> status g <> ai_turn -> aiTurn a = a)
  /\ (forall o a g g',
         gameState a = Some g -> status g <> selecting_suit ->
         gameState (step o a) = Some g' -> status g' = selecting_suit ->
         exists card, o = Play card /\ rank card = R8
                      /\ status g = player_turn).
Proof.
  split; [exact aiTurn_status|].
  split; [exact aiTurn_idle|].
  exact selecting_suit_origin.
Qed.

Lemma C9_selecting_suit_only_from_player_witness :
  (exists g',
      gameState (aiTurn eightOnlyState) = Some g'
      /\ (status g' = player_turn \/ status g' = ai_turn
          \/ status g' = game_over))
  /\ aiTurn sampleStart = sampleStart.
Proof.
  destruct C9_selecting_suit_only_from_player as (H1 & H2 & _).
  split.
  - destruct (H1 eightOnlyState _ eq_refl eq_refl) as (g' & E & Hs & _).
    exists g'. auto.
  - apply (H2 sampleStart _ eq_refl). vm_compute. discriminate.
Defined.

(* ================================================================== *)
(** ** Removal by identifier *)
(* ================================================================== *)

Lemma removeById_absent (card : Card) (hand : list Card) :
  ~ In (id card) (map id hand) -> removeById card hand = hand.
Proof.
  induction hand as [|x rest IH]; simpl; intros Hn; [reflexivity|].
  destruct (String.eqb_spec (id x) (id card)) as [E|E]; simpl.
  - exfalso. apply Hn. now left.
  - f_equal. apply IH. intros Hin. apply Hn. now right.
Qed.

Lemma removeById_perm (card : Card) (hand : list Card) :
  NoDup (map id hand) -> In card hand ->
  Permutation hand (card :: removeById card hand).
Proof.
  induction hand as [|x rest IH]; simpl; intros Hnd Hin; [contradiction|].
  inversion Hnd as [|? ? Hx Hrest]; subst.
  destruct Hin as [-> | Hin].
  - rewrite String.eqb_refl. simpl.
    now rewrite (removeById_absent card rest Hx).
  - destruct (String.eqb_spec (id x) (id card)) as [E|E]; simpl.
    + exfalso. apply Hx. rewrite E. now apply in_map.
    + rewrite perm_swap. apply perm_skip. now apply IH.
Qed.

(* ================================================================== *)
(** ** The pending eight *)
(* ================================================================== *)

Lemma pendingConsistent_init (fresh : list Card) :
  pendingConsistent (initGame fresh mount).
Proof.
  unfold pendingConsistent, initGame, initGameBody.
  destruct (nth_error _ _); simpl; [|reflexivity].
  split; [congruence | discriminate].
Qed.

Lemma pendingConsistent_step (o : Op) (a : App) :
  pendingConsistent a -> pendingConsistent (step o a).
Proof.
  unfold pendingConsistent. intros H.
  destruct (gameState a) as [g|] eqn:Hg.
  2:{ destruct o; simpl;
        [unfold handleDraw | unfold handlePlayCard
         | unfold handleSuitSelection | unfold aiTurn];
        rewrite Hg; rewrite Hg; exact H. }
  destruct o as [|card|s|]; simpl.
  - unfold handleDraw. rewrite Hg.
    destruct (status_eqb_spec (status g) player_turn) as [Hp|Hp]; simpl;
      [|rewrite Hg; exact H].
    assert (pendingEight a = None) as Hn.
    { destruct (pendingEight a); [|reflexivity].
      assert (status g = selecting_suit) by (apply H; discriminate).
      congruence. }
    destruct (pop (deck g)) as [[d x]|]; simpl; rewrite Hn;
      [destruct (isValidMove x _ _)|]; split; congruence.
  - unfold handlePlayCard. rewrite Hg.
    destruct (status_eqb_spec (status g) player_turn) as [Hp|Hp]; simpl;
      [|rewrite Hg; exact H].
    destruct (isValidMove card _ _); simpl; [|rewrite Hg; exact H].
    destruct (rank_eqb (rank card) R8); simpl.
    + split; [reflexivity | discriminate].
    + assert (pendingEight a = None) as Hn.
      { destruct (pendingEight a); [|reflexivity].
        assert (status g = selecting_suit) by (apply H; discriminate).
        congruence. }
      match goal with |- context [settle a ?n] =>
        destruct (settle_cases a n) as (k & E & _ & _ & _ & _ & _ & _ & Hc)
      end.
      rewrite E. simpl. rewrite Hn.
      destruct Hc as [[_ ->] | (w & _ & Hgo & _)]; simpl; split; congruence.
  - unfold handleSuitSelection. rewrite Hg.
    destruct (pendingEight a) as [c|] eqn:Hp; simpl.
    + split; congruence.
    + rewrite Hg, Hp. exact H.
  - destruct (status_eqb_spec (status g) ai_turn) as [Ha|Ha].
    + destruct (aiTurn_status a g Hg Ha) as (k & E & Hk & Hpe).
      rewrite E, Hpe.
      assert (pendingEight a = None) as Hn.
      { destruct (pendingEight a); [|reflexivity].
        assert (status g = selecting_suit) by (apply H; discriminate).
        congruence. }
      rewrite Hn. destruct Hk as [Hk | [Hk | Hk]]; split; congruence.
    + rewrite (aiTurn_idle a g Hg Ha), Hg. exact H.
Qed.

Lemma reachable_pendingConsistent (a : App) :
  reachable a -> pendingConsistent a.
Proof.
  induction 1 as [fresh _ | o a _ IH].
  - apply pendingConsistent_init.
  - now apply pendingConsistent_step.
Qed.

(* ================================================================== *)
(** ** The wild-card protocol *)
(* ================================================================== *)

Lemma play_eight (a : App) (g : GameState) (card : Card) :
  gameState a = Some g -> status g = player_turn -> rank card = R8 ->
  exists g1,
    handlePlayCard card a
    = {| gameState := Some g1; pendingEight := Some card; error := error a |}
    /\ status g1 = selecting_suit
    /\ playerHand g1 = removeById card (playerHand g)
    /\ discardPile g1 = card :: discardPile g
    /\ deck g1 = deck g
    /\ aiHand g1 = aiHand g
    /\ currentSuit g1 = currentSuit g
    /\ currentRank g1 = currentRank g
    /\ winner g1 = winner g.
Proof.
  intros Hg Hs H8. enter handlePlayCard Hg Hs.
  unfold isValidMove. rewrite H8. simpl.
  eexists. split; [reflexivity|]. simpl. repeat split.
Qed.

Lemma chooseSuit_pending (a : App) (g : GameState) (c : Card) (s : Suit) :
  gameState a = Some g -> pendingEight a = Some c ->
  exists g2,
    handleSuitSelection s a
    = {| gameState := Some g2; pendingEight := None; error := error a |}
    /\ currentSuit g2 = s
    /\ currentRank g2 = R8
    /\ status g2 = ai_turn
    /\ deck g2 = deck g
    /\ discardPile g2 = discardPile g
    /\ playerHand g2 = playerHand g
    /\ aiHand g2 = aiHand g
    /\ winner g2 = winner g.
Proof.
  intros Hg Hp. unfold handleSuitSelection. rewrite Hg, Hp.
  eexists. split; [reflexivity|]. simpl. repeat split.
Qed.

Lemma chooseSuit_no_pending (a : App) (s : Suit) :
  pendingEight a = None -> handleSuitSelection s a = a.
Proof.
  intros Hp. unfold handleSuitSelection. rewrite Hp.
  now destruct (gameState a).
Qed.

Lemma chooseSuit_wrong_status (a : App) (g : GameState) (s : Suit) :
  reachable a -> gameState a = Some g -> status g <> selecting_suit ->
  handleSuitSelection s a = a.
Proof.
  intros Hr Hg Hs. apply chooseSuit_no_pending.
  apply reachable_pendingConsistent in Hr. unfold pendingConsistent in Hr.
  rewrite Hg in Hr. destruct (pendingEight a); [|reflexivity].
  exfalso. apply Hs, Hr. discriminate.
Qed.

(** C4, as the code has it. On the player's turn, playing an eight always
    leads to [selecting_suit] (never straight to [ai_turn] or
    [game_over]): the card becomes the pending eight, leaves the hand (by
    identifier) and is put at the head of the discard pile, while the
    target suit and rank stay what they were.  Choosing a suit while an
    eight is pending sets the target suit to the chosen one and the
    target rank to eight, clears the pending eight and hands the turn to
    the computer.  Choosing a suit with no eight pending changes nothing;
    the handler does not read the status, but in every state reachable
    from initialization an eight is pending only in [selecting_suit], so
    there it changes nothing either when the status is another one. *)
Theorem C4_wild_card_protocol :
  (forall a g card,
      gameState a = Some g -> status g = player_turn -> rank card = R8 ->
      exists g1,
        handlePlayCard card a
        = {| gameState := Some g1; pendingEight := Some card;
             error := error a |}
        /\ status g1 = selecting_suit
        /\ playerHand g1 = removeById card (playerHand g)
        /\ (NoDup (map id (playerHand g)) -> In card (playerHand g) ->
            Permutation (playerHand g) (card :: playerHand g1))
        /\ discardPile g1 = card :: discardPile g
        /\ currentSuit g1 = currentSuit g
        /\ currentRank g1 = currentRank g
        /\ forall s, exists g2,
            handleSuitSelection s (handlePlayCard card a)
            = {| gameState := Some g2; pendingEight := None;
                 error := error a |}
            /\ currentSuit g2 = s
            /\ currentRank g2 = R8
            /\ status g2 = ai_turn
            /\ discardPile g2 = card :: discardPile g)
  /\ (forall a g c s,
         gameState a = Some g -> pendingEight a = Some c ->
         exists g2,
           handleSuitSelection s a
           = {| gameState := Some g2; pendingEight := None;
                error := error a |}
           /\ currentSuit g2 = s
           /\ currentRank g2 = R8
           /\ status g2 = ai_turn)
  /\ (forall a s, pendingEight a = None -> handleSuitSelection s a = a)
  /\ (forall a g s,
         reachable a -> gameState a = Some g ->
         status g <> selecting_suit -> handleSuitSelection s a = a).
Proof.
  split; [|split; [|split]].
  - intros a g card Hg Hs H8.
    destruct (play_eight a g card Hg Hs H8)
      as (g1 & E & H1 & H2 & H3 & H4 & H5 & H6 & H7 & H8').
    exists g1. rewrite E.
    split; [reflexivity|]. split; [assumption|]. split; [assumption|].
    split. { intros Hnd Hin. rewrite H2. now apply removeById_perm. }
    split; [assumption|]. split; [assumption|]. split; [assumption|].
    intros s.
    destruct (chooseSuit_pending
                {| gameState := Some g1; pendingEight := Some card;
                   error := error a |} g1 card s eq_refl eq_refl)
      as (g2 & E2 & K1 & K2 & K3 & _ & K5 & _).
    exists g2. rewrite E2. simpl. repeat split; congruence.
  - intros a g c s Hg Hp.
    destruct (chooseSuit_pending a g c s Hg Hp) as (g2 & E2 & K1 & K2 & K3 & _).
    exists g2. auto.
  - exact chooseSuit_no_pending.
  - exact chooseSuit_wrong_status.
Qed.

Lemma C4_wild_card_protocol_witness :
  (exists g1 g2,
      gameState (handlePlayCard (cardOf hearts R8) sampleStart) = Some g1
      /\ status g1 = selecting_suit
      /\ gameState (handleSuitSelection spades
                      (handlePlayCard (cardOf hearts R8) sampleStart))
         = Some g2
      /\ currentSuit g2 = spades /\ currentRank g2 = R8
      /\ status g2 = ai_turn)
  /\ handleSuitSelection clubs sampleStart = sampleStart.
Proof.
  destruct C4_wild_card_protocol as (H1 & _ & H3 & _).
  split.
  - destruct (H1 sampleStart _ (cardOf hearts R8) eq_refl eq_refl eq_refl)
      as (g1 & E & S1 & _ & _ & _ & _ & _ & Hs).
    destruct (Hs spades) as (g2 & E2 & K1 & K2 & K3 & _).
    exists g1, g2. rewrite E2, E. simpl. auto 10.
  - apply H3. reflexivity.
Defined.

(** C4, as stated, fails on "the target rank remains eight until a suit
    is chosen". In the game started from [sampleDeck] the target is the
    nine of hearts; the player plays the eight of hearts, the status
    becomes [selecting_suit], and the target rank is still nine. *)
Lemma C4_counterexample :
  exists g1,
    gameState (handlePlayCard (cardOf hearts R8) sampleStart) = Some g1
    /\ status g1 = selecting_suit
    /\ discardPile g1 = [cardOf hearts R8; cardOf hearts R9]
    /\ currentRank g1 = R9
    /\ currentRank g1 <> R8.
Proof.
  eexists. split; [reflexivity|]. simpl. repeat split. discriminate.
Qed.

(** Restarting while an eight is pending keeps it pending ([initGame]
    does not reset that cell), and the suit choice then acts on the new
    game although its status is [player_turn]. *)
Lemma chooseSuit_after_restart :
  let a := initGame sampleDeck (handlePlayCard (cardOf hearts R8) sampleStart) in
  exists g g',
    gameState a = Some g /\ status g = player_turn
    /\ pendingEight a = Some (cardOf hearts R8)
    /\ gameState (handleSuitSelection clubs a) = Some g'
    /\ status g' = ai_turn.
Proof. do 2 eexists. repeat split. Qed.

(* ================================================================== *)
(** ** The computer's choice of suit *)
(* ================================================================== *)

Lemma getCount_bump (acc : SuitCounts) (s s' : Suit) :
  getCount (bump acc s) s'
  = if suit_eqb s s' then Some (countOf acc s + 1) else getCount acc s'.
Proof.
  unfold countOf. induction acc as [|[k n] rest IH]; simpl.
  - destruct (suit_eqb s s'); reflexivity.
  - destruct (suit_eqb_spec k s) as [->|Hks]; simpl.
    + destruct (suit_eqb s s'); reflexivity.
    + rewrite IH. destruct (suit_eqb_spec s s') as [E|Hss'].
      * subst s'. destruct (suit_eqb_spec k s); [contradiction|reflexivity].
      * reflexivity.
Qed.

Lemma countOf_bump (acc : SuitCounts) (s s' : Suit) :
  countOf (bump acc s) s'
  = countOf acc s' + (if suit_eqb s s' then 1 else 0).
Proof.
  unfold countOf at 1. rewrite getCount_bump.
  destruct (suit_eqb_spec s s') as [->|_]; [reflexivity|].
  unfold countOf. lia.
Qed.

Lemma countOf_fold (hand : list Card) (acc : SuitCounts) (s : Suit) :
  countOf (fold_left (fun acc c => bump acc (suit c)) hand acc) s
  = countOf acc s + suitCount s hand.
Proof.
  revert acc. induction hand as [|c hand IH]; intros acc; simpl.
  - unfold suitCount. simpl. lia.
  - rewrite IH, countOf_bump. unfold suitCount. simpl.
    destruct (suit_eqb (suit c) s); simpl; lia.
Qed.

Lemma countOf_countSuits (hand : list Card) (s : Suit) :
  countOf (countSuits hand) s = suitCount s hand.
Proof. unfold countSuits. now rewrite countOf_fold. Qed.

Lemma getCount_keys (acc : SuitCounts) (s : Suit) :
  getCount acc s <> None -> In s (keys acc).
Proof.
  induction acc as [|[k n] rest IH]; simpl; [congruence|].
  destruct (suit_eqb_spec k s); auto.
Qed.

Lemma insertDesc_In (acc : SuitCounts) (a x : Suit) (l : list Suit) :
  In x (insertDesc acc a l) <-> x = a \/ In x l.
Proof.
  induction l as [|b rest IH]; simpl.
  - intuition.
  - destruct (countOf acc b <=? countOf acc a); simpl; [intuition|].
    rewrite IH. intuition.
Qed.

Lemma sortDesc_In (acc : SuitCounts) (x : Suit) (ks : list Suit) :
  In x (sortDesc acc ks) <-> In x ks.
Proof.
  induction ks as [|k ks IH]; simpl; [tauto|].
  rewrite insertDesc_In, IH. intuition.
Qed.

Lemma insertDesc_headMax (acc : SuitCounts) (a : Suit) (l : list Suit) :
  headMax acc l -> headMax acc (insertDesc acc a l).
Proof.
  destruct l as [|b rest]; simpl; [tauto|]. intros H.
  destruct (Nat.leb_spec (countOf acc b) (countOf acc a)) as [Hle|Hlt]; simpl.
  - intros x [<- | Hx]; [assumption|]. specialize (H x Hx). lia.
  - intros x Hx. apply insertDesc_In in Hx as [-> | Hx]; [lia | auto].
Qed.

Lemma sortDesc_headMax (acc : SuitCounts) (ks : list Suit) :
  headMax acc (sortDesc acc ks).
Proof.
  induction ks as [|k ks IH]; simpl; [exact I|].
  now apply insertDesc_headMax.
Qed.

(** The suit the computer picks has the most cards in the hand it is
    picked from. *)
Lemma pickSuit_max (hand : list Card) (s : Suit) :
  suitCount s hand <= suitCount (pickSuit hand) hand.
Proof.
  rewrite <- !countOf_countSuits. unfold pickSuit.
  set (acc := countSuits hand).
  assert (getCount acc s = None \/ In s (sortDesc acc (keys acc))) as [Hn|Hin].
  { destruct (getCount acc s) eqn:E; [right | now left].
    apply sortDesc_In, getCount_keys. congruence. }
  - unfold countOf at 1. rewrite Hn. lia.
  - pose proof (sortDesc_headMax acc (keys acc)) as Hmax.
    destruct (sortDesc acc (keys acc)) as [|h rest]; [contradiction|].
    destruct Hin as [<- | Hin]; [lia | now apply Hmax].
Qed.

Lemma pickSuit_empty : pickSuit [] = hearts.
Proof. reflexivity. Qed.

(* ------------------------------------------------------------------ *)
(** *** The tie-break: the suit met first wins *)
(* ------------------------------------------------------------------ *)

Lemma keys_bump (acc : SuitCounts) (s : Suit) :
  keys (bump acc s)
  = if existsb (suit_eqb s) (keys acc) then keys acc else keys acc ++ [s].
Proof.
  induction acc as [|[k n] rest IH]; simpl; [reflexivity|].
  destruct (suit_eqb_spec k s) as [->|Hks]; simpl.
  - destruct (suit_eqb_spec s s); [reflexivity | contradiction].
  - destruct (suit_eqb_spec s k) as [E|_]; [symmetry in E; contradiction|].
    simpl. fold (keys rest). fold (keys (bump rest s)). rewrite IH.
    now destruct (existsb (suit_eqb s) (keys rest)).
Qed.

Lemma countSuits_snoc (hand : list Card) (c : Card) :
  countSuits (hand ++ [c]) = bump (countSuits hand) (suit c).
Proof. unfold countSuits. now rewrite fold_left_app. Qed.

Lemma existsb_suit_In (s : Suit) (ks : list Suit) :
  existsb (suit_eqb s) ks = true <-> In s ks.
Proof.
  rewrite existsb_exists. split.
  - intros (x & Hx & E). apply suit_eqb_eq in E. now subst.
  - intros H. exists s. split; [assumption | now apply suit_eqb_eq].
Qed.

(** The keys are the suits of the hand. *)
Lemma keys_countSuits_In (hand : list Card) (k : Suit) :
  In k (keys (countSuits hand)) <-> exists x, In x hand /\ suit x = k.
Proof.
  induction hand as [|c hand IH] using rev_ind.
  - simpl. split; [contradiction | intros (x & [] & _)].
  - rewrite countSuits_snoc, keys_bump.
    assert (In k (keys (countSuits hand)) \/ k = suit c
            <-> exists x, In x (hand ++ [c]) /\ suit x = k) as Hgoal.
    { rewrite IH. split.
      - intros [(x & Hx & E) | ->].
        + exists x. split; [apply in_or_app; now left | assumption].
        + exists c. split; [apply in_or_app; right; now left | reflexivity].
      - intros (x & Hx & E). apply in_app_or in Hx as [Hx | [-> | []]];
          [left; eauto | now right]. }
    rewrite <- Hgoal.
    destruct (existsb (suit_eqb (suit c)) (keys (countSuits hand))) eqn:Ex.
    + apply existsb_suit_In in Ex. split; [now left|].
      intros [H | ->]; assumption.
    + rewrite in_app_iff. simpl. intuition.
Qed.

(** The keys are in the order in which the suits are first met: a key
    that comes before another one has a card in front of every card of
    the other. *)
Lemma keys_countSuits_order (hand : list Card) :
  forall kp h kq s,
    keys (countSuits hand) = kp ++ h :: kq -> In s kq ->
    exists p x q,
      hand = p ++ x :: q /\ suit x = h /\ forall y, In y p -> suit y <> s.
Proof.
  induction hand as [|c hand IH] using rev_ind; intros kp h kq s Hk Hs.
  - destruct kp; discriminate.
  - rewrite countSuits_snoc, keys_bump in Hk.
    destruct (existsb (suit_eqb (suit c)) (keys (countSuits hand))) eqn:Ex.
    + destruct (IH kp h kq s Hk Hs) as (p & x & q & -> & Hx & Hp).
      exists p, x, (q ++ [c]). rewrite <- app_assoc. auto.
    + assert (~ In (suit c) (keys (countSuits hand))) as Hnew.
      { intros H. apply existsb_suit_In in H. congruence. }
      destruct (snoc_cases kq) as [-> | (kq' & z & ->)]; [contradiction|].
      rewrite app_comm_cons, app_assoc in Hk.
      apply app_inj_tail in Hk as [Hk <-].
      apply in_app_or in Hs as [Hs | [<- | []]].
      * destruct (IH kp h kq' s Hk Hs) as (p & x & q & -> & Hx & Hp).
        exists p, x, (q ++ [c]). rewrite <- app_assoc. auto.
      * assert (In h (keys (countSuits hand))) as Hh
          by (rewrite Hk; apply in_elt).
        apply keys_countSuits_In in Hh as (x & Hx & E).
        apply in_split in Hx as (p & q & ->).
        exists p, x, (q ++ [c]). rewrite <- app_assoc.
        split; [reflexivity|]. split; [assumption|].
        intros y Hy E'. apply Hnew. rewrite <- E'.
        apply keys_countSuits_In. exists y.
        split; [apply in_or_app; now left | reflexivity].
Qed.

(** The head of the sorted keys is the first key with the highest
    count. *)
Lemma sortDesc_head_split (acc : SuitCounts) (ks : list Suit) :
  forall h t,
    sortDesc acc ks = h :: t ->
    exists kp kq,
      ks = kp ++ h :: kq
      /\ (forall x, In x kp -> countOf acc x < countOf acc h)
      /\ (forall x, In x kq -> countOf acc x <= countOf acc h).
Proof.
  induction ks as [|k ks IH]; simpl; intros h t H; [discriminate|].
  destruct (sortDesc acc ks) as [|h' t'] eqn:Es.
  - simpl in H. injection H as <- <-.
    assert (ks = []) as ->.
    { destruct ks as [|z ks]; [reflexivity|].
      assert (In z (sortDesc acc (z :: ks))) as Hz
        by (apply sortDesc_In; now left).
      rewrite Es in Hz. contradiction. }
    exists [], []. simpl. intuition.
  - destruct (IH h' t' eq_refl) as (kp & kq & -> & Hp & Hq).
    simpl in H.
    destruct (Nat.leb_spec (countOf acc h') (countOf acc k)) as [Hle|Hlt];
      injection H as <- <-.
    + exists [], (kp ++ h' :: kq). simpl. split; [reflexivity|].
      split; [contradiction|].
      intros x Hx. apply in_app_or in Hx as [Hx | [<- | Hx]].
      * specialize (Hp x Hx). lia.
      * assumption.
      * specialize (Hq x Hx). lia.
    + exists (k :: kp), kq. simpl. split; [reflexivity|]. split; [|assumption].
      intros x [<- | Hx]; auto.
Qed.

Lemma split_compare {A : Type} (pre post p q : list A) (c x : A) :
  pre ++ c :: post = p ++ x :: q ->
  In x pre \/ x = c \/ In c p.
Proof.
  revert p. induction pre as [|z pre IH]; intros p H.
  - destruct p as [|y p]; simpl in H; injection H as -> H; simpl; auto.
  - destruct p as [|y p]; simpl in H; injection H as -> H.
    + left. now left.
    + destruct (IH p H) as [Hx | [Hx | Hx]]; simpl; auto.
Qed.

(** Among the suits with the highest count, the computer picks the one
    that it meets first in the hand. *)
Lemma pickSuit_tie_break (hand pre post : list Card) (c : Card) :
  hand = pre ++ c :: post ->
  (forall s, suitCount s hand <= suitCount (suit c) hand) ->
  (forall x, In x pre -> suitCount (suit x) hand < suitCount (suit c) hand) ->
  pickSuit hand = suit c.
Proof.
  intros Hhand Hmax Hpre. unfold pickSuit.
  set (acc := countSuits hand).
  assert (In (suit c) (keys acc)) as Hc.
  { apply keys_countSuits_In. exists c. split; [|reflexivity].
    rewrite Hhand. apply in_elt. }
  destruct (sortDesc acc (keys acc)) as [|h t] eqn:Es.
  { apply (proj2 (sortDesc_In acc (suit c) (keys acc))) in Hc.
    rewrite Es in Hc. contradiction. }
  destruct (sortDesc_head_split acc (keys acc) h t Es)
    as (kp & kq & Hk & Hp & Hq).
  unfold acc in Hp, Hq. 
  rewrite Hk in Hc. apply in_app_or in Hc as [Hc | [Hc | Hc]].
  - specialize (Hp _ Hc). rewrite !countOf_countSuits in Hp.
    specialize (Hmax h). lia.
  - assumption.
  - specialize (Hq _ Hc). rewrite !countOf_countSuits in Hq.
    destruct (keys_countSuits_order hand kp h kq (suit c) Hk Hc)
      as (p & x & q & Hsplit & Hx & Hnot).
    rewrite Hhand in Hsplit.
    destruct (split_compare pre post p q c x Hsplit) as [H | [H | H]].
    + specialize (Hpre x H). rewrite Hx in Hpre. lia.
    + now subst.
    + exfalso. now apply (Hnot c H).
Qed.

(* ================================================================== *)
(** ** The computer's choice of card *)
(* ================================================================== *)

Lemma find_filter {A : Type} (p q : A -> bool) (l : list A) :
  find p (filter q l) = find (fun x => q x && p x) l.
Proof.
  induction l as [|x l IH]; simpl; [reflexivity|].
  destruct (q x); simpl; [|assumption].
  destruct (p x); [reflexivity | assumption].
Qed.

Lemma find_as_filter_head {A : Type} (p : A -> bool) (l : list A) :
  find p l = match filter p l with [] => None | x :: _ => Some x end.
Proof.
  induction l as [|x l IH]; simpl; [reflexivity|].
  destruct (p x); [reflexivity | assumption].
Qed.

Lemma chooseCard_In (first : Card) (rest : list Card) :
  In (chooseCard first (first :: rest)) (first :: rest).
Proof.
  unfold chooseCard.
  destruct (find _ (first :: rest)) eqn:En;
    [now apply find_some in En | now left].
Qed.

Lemma aiTurn_play (a : App) (g : GameState) (first : Card) (rest : list Card) :
  gameState a = Some g -> status g = ai_turn ->
  filter (fun c => isValidMove c (currentSuit g) (currentRank g)) (aiHand g)
  = first :: rest ->
  let cardToPlay := chooseCard first (first :: rest) in
  exists g',
    aiTurn a = setGameState a g'
    /\ deck g' = deck g
    /\ discardPile g' = cardToPlay :: discardPile g
    /\ playerHand g' = playerHand g
    /\ aiHand g' = removeById cardToPlay (aiHand g)
    /\ currentSuit g'
       = (if rank_eqb (rank cardToPlay) R8
          then pickSuit (removeById cardToPlay (aiHand g))
          else suit cardToPlay)
    /\ currentRank g' = rank cardToPlay.
Proof.
  intros Hg Hs Ef cardToPlay. enter aiTurn Hg Hs. rewrite Ef.
  fold cardToPlay.
  match goal with |- context [settle a ?n] =>
    destruct (settle_cases a n) as (g' & E & H1 & H2 & H3 & H4 & H5 & H6 & _)
  end.
  exists g'. rewrite E. simpl in *. auto 10.
Qed.

(** C5. On the computer's turn, when its hand holds a valid card, the
    computer plays one card of its hand: the first valid card that is not
    an eight, in hand order, if there is one, and otherwise (every valid
    card is an eight) the first valid card, an eight.  The card leaves
    the hand and heads the discard pile, and the target rank becomes the
    card's rank.  When the card is an eight, the target rank is eight and
    the new target suit has the highest number of cards among the cards
    left in the hand (of the suits with that number, it is the one met
    first in the hand), and is hearts when no card is left; otherwise
    the target suit is the card's suit. *)
Theorem C5_computer_policy (a : App) (g : GameState) :
  gameState a = Some g ->
  status g = ai_turn ->
  (exists c, In c (aiHand g)
             /\ isValidMove c (currentSuit g) (currentRank g) = true) ->
  exists cardToPlay g',
    gameState (aiTurn a) = Some g'
    /\ In cardToPlay (aiHand g)
    /\ isValidMove cardToPlay (currentSuit g) (currentRank g) = true
    /\ aiHand g' = removeById cardToPlay (aiHand g)
    /\ discardPile g' = cardToPlay :: discardPile g
    /\ currentRank g' = rank cardToPlay
    /\ (forall c, firstPlayableNonEight g = Some c -> cardToPlay = c)
    /\ (firstPlayableNonEight g = None ->
        firstPlayable g = Some cardToPlay /\ rank cardToPlay = R8)
    /\ (rank cardToPlay = R8 ->
        (forall c, In c (aiHand g) ->
                   isValidMove c (currentSuit g) (currentRank g) = true ->
                   rank c = R8)
        /\ currentRank g' = R8
        /\ (forall s, suitCount s (aiHand g')
                      <= suitCount (currentSuit g') (aiHand g'))
        /\ (forall pre c post,
               aiHand g' = pre ++ c :: post ->
               (forall s, suitCount s (aiHand g')
                          <= suitCount (suit c) (aiHand g')) ->
               (forall x, In x pre ->
                          suitCount (suit x) (aiHand g')
                          < suitCount (suit c) (aiHand g')) ->
               currentSuit g' = suit c)
        /\ (aiHand g' = [] -> currentSuit g' = hearts))
    /\ (rank cardToPlay <> R8 -> currentSuit g' = suit cardToPlay).
Proof.
  intros Hg Hs (c0 & Hin0 & Hv0).
  set (valid := fun c => isValidMove c (currentSuit g) (currentRank g)).
  set (non8 := fun c => negb (rank_eqb (rank c) R8)).
  destruct (filter valid (aiHand g)) as [|first rest] eqn:Ef.
  { exfalso. assert (In c0 (filter valid (aiHand g))) as H
      by (apply filter_In; auto).
    rewrite Ef in H. exact H. }
  destruct (aiTurn_play a g first rest Hg Hs Ef)
    as (g' & E & _ & Hdisc & _ & Hhand & Hsuit & Hrank).
  set (card := chooseCard first (first :: rest)) in *.
  assert (find non8 (first :: rest) = firstPlayableNonEight g) as Hfind.
  { rewrite <- Ef. apply find_filter. }
  assert (firstPlayable g = Some first) as Hfirst.
  { unfold firstPlayable. rewrite find_as_filter_head. fold valid.
    now rewrite Ef. }
  assert (In card (first :: rest)) as Hin.
  { unfold card, chooseCard. fold non8.
    destruct (find non8 (first :: rest)) eqn:En;
      [now apply find_some in En | now left]. }
  assert (forall c, firstPlayableNonEight g = Some c -> card = c) as Hsome.
  { intros c Hc. unfold card, chooseCard. fold non8.
    rewrite Hfind, Hc. reflexivity. }
  assert (firstPlayableNonEight g = None ->
          card = first /\ forall c, In c (first :: rest) -> rank c = R8)
    as Hnone.
  { intros Hn. rewrite <- Hfind in Hn. split.
    - unfold card, chooseCard. fold non8. now rewrite Hn.
    - intros c Hc. pose proof (find_none _ _ Hn c Hc) as Hc8.
      unfold non8 in Hc8. apply negb_false_iff in Hc8.
      now apply rank_eqb_eq. }
  rewrite <- Ef in Hin. apply filter_In in Hin as [Hin Hv].
  exists card, g'. rewrite E.
  split; [reflexivity|]. split; [assumption|]. split; [assumption|].
  split; [assumption|]. split; [assumption|]. split; [assumption|].
  split; [assumption|].
  split.
  { intros Hn. destruct (Hnone Hn) as [-> H8]. split; [assumption|].
    apply H8. now left. }
  split.
  - intros H8.
    assert (firstPlayableNonEight g = None) as Hn.
    { destruct (firstPlayableNonEight g) as [c|] eqn:Ec; [|reflexivity].
      exfalso. pose proof (Hsome c eq_refl) as <-.
      apply find_some in Ec as [_ Ec].
      apply andb_true_iff in Ec as [_ Ec]. apply negb_true_iff in Ec.
      apply rank_eqb_neq in Ec. contradiction. }
    destruct (Hnone Hn) as [_ Hall].
    split.
    { intros c Hc Hvc. apply Hall. rewrite <- Ef. apply filter_In. auto. }
    split; [congruence|].
    apply rank_eqb_eq in H8. rewrite H8 in Hsuit.
    rewrite Hsuit, Hhand. split; [|split].
    + intros s. apply pickSuit_max.
    + intros pre c post Hsplit Hmax Hpre.
      now apply pickSuit_tie_break with pre post.
    + intros ->. reflexivity.
  - intros H8. apply rank_eqb_neq in H8. now rewrite H8 in Hsuit.
Qed.

Lemma C5_computer_policy_witness :
  exists g',
    gameState (aiTurn eightOnlyState) = Some g'
    /\ discardPile g' = [cardOf clubs R8; cardOf hearts R5]
    /\ aiHand g' = [cardOf diamonds R2; cardOf spades R3; cardOf diamonds R9]
    /\ currentRank g' = R8
    /\ currentSuit g' = diamonds.
Proof.
  destruct (C5_computer_policy eightOnlyState _ eq_refl eq_refl)
    as (card & g' & E & _).
  - exists (cardOf clubs R8). split; [simpl; auto | reflexivity].
  - exists g'. split; [exact E|].
    vm_compute in E. injection E as <-. repeat split.
Defined.

(* ================================================================== *)
(** ** Conservation of the cards *)
(* ================================================================== *)

Lemma perm_draw_player (K D P A : list Card) (top : Card) :
  Permutation (K ++ D ++ (P ++ [top]) ++ A) ((K ++ [top]) ++ D ++ P ++ A).
Proof.
  rewrite <- !app_assoc. simpl. apply Permutation_app_head.
  rewrite (app_assoc D P A), (app_assoc D P (top :: A)).
  symmetry. apply Permutation_middle.
Qed.

Lemma perm_draw_ai (K D P A : list Card) (top : Card) :
  Permutation (K ++ D ++ P ++ A ++ [top]) ((K ++ [top]) ++ D ++ P ++ A).
Proof.
  rewrite <- !app_assoc. simpl. apply Permutation_app_head.
  rewrite !app_assoc. rewrite <- Permutation_middle.
  rewrite app_nil_r. reflexivity.
Qed.

Lemma perm_play_player (K D P P' A : list Card) (card : Card) :
  Permutation P (card :: P') ->
  Permutation (K ++ (card :: D) ++ P' ++ A) (K ++ D ++ P ++ A).
Proof.
  intros HP. apply Permutation_app_head. rewrite HP. simpl.
  apply Permutation_middle.
Qed.

Lemma perm_play_ai (K D P A A' : list Card) (card : Card) :
  Permutation A (card :: A') ->
  Permutation (K ++ (card :: D) ++ P ++ A') (K ++ D ++ P ++ A).
Proof.
  intros HA. apply Permutation_app_head. rewrite HA. simpl.
  rewrite (app_assoc D P (card :: A')), (app_assoc D P A').
  apply Permutation_middle.
Qed.

Lemma NoDup_ids_playerHand (g : GameState) :
  NoDup (map id (zones g)) -> NoDup (map id (playerHand g)).
Proof.
  unfold zones. rewrite !map_app. intros H.
  apply NoDup_app_remove_l, NoDup_app_remove_l in H.
  now apply NoDup_app_remove_r in H.
Qed.

Lemma NoDup_ids_aiHand (g : GameState) :
  NoDup (map id (zones g)) -> NoDup (map id (aiHand g)).
Proof.
  unfold zones. rewrite !map_app. intros H.
  now apply NoDup_app_remove_l, NoDup_app_remove_l, NoDup_app_remove_l in H.
Qed.

Lemma draw_zones (a : App) (g : GameState) :
  gameState a = Some g ->
  exists g', gameState (handleDraw a) = Some g'
             /\ Permutation (zones g') (zones g).
Proof.
  intros Hg.
  destruct (status_eqb_spec (status g) player_turn) as [Hs|Hs].
  - destruct (snoc_cases (deck g)) as [Hd | (rest & top & Hd)].
    + destruct (draw_empty a g Hg Hs Hd) as (g' & E & H1 & H2 & _ & H4 & H5 & _).
      exists g'. rewrite E. split; [reflexivity|].
      unfold zones. now rewrite H1, H2, H4, H5, Hd.
    + destruct (draw_nonempty a g rest top Hg Hs Hd)
        as (g' & E & H1 & H2 & _ & H4 & H5 & _).
      exists g'. rewrite E. split; [reflexivity|].
      unfold zones. rewrite H1, H2, H4, H5, Hd. apply perm_draw_player.
  - exists g. unfold handleDraw. rewrite Hg.
    apply status_eqb_neq in Hs. rewrite Hs. simpl. auto.
Qed.

Lemma play_zones (a : App) (g : GameState) (card : Card) :
  gameState a = Some g ->
  NoDup (map id (zones g)) ->
  (isPlayable g card = true -> In card (playerHand g)) ->
  exists g', gameState (handlePlayCard card a) = Some g'
             /\ Permutation (zones g') (zones g).
Proof.
  intros Hg Hnd Hin.
  destruct (isPlayable g card) eqn:Hp.
  - apply isPlayable_iff in Hp as [Hs Hv].
    destruct (play_accepts a g card Hg Hs Hv) as (g' & E & H1 & H2 & H3 & H4).
    exists g'. split; [assumption|].
    unfold zones. rewrite H1, H2, H3, H4.
    apply perm_play_player, removeById_perm; auto.
    now apply NoDup_ids_playerHand.
  - exists g. rewrite (play_rejects a g card Hg); [auto|].
    unfold isPlayable in Hp. apply andb_false_iff in Hp as [Hp|Hp];
      [left; now apply status_eqb_neq | now right].
Qed.

Lemma chooseSuit_zones (a : App) (g : GameState) (s : Suit) :
  gameState a = Some g ->
  exists g', gameState (handleSuitSelection s a) = Some g'
             /\ Permutation (zones g') (zones g).
Proof.
  intros Hg. destruct (pendingEight a) as [c|] eqn:Hp.
  - destruct (chooseSuit_pending a g c s Hg Hp)
      as (g2 & E & _ & _ & _ & H1 & H2 & H3 & H4 & _).
    exists g2. rewrite E. split; [reflexivity|].
    unfold zones. now rewrite H1, H2, H3, H4.
  - rewrite (chooseSuit_no_pending a s Hp). eauto.
Qed.

Lemma aiTurn_zones (a : App) (g : GameState) :
  gameState a = Some g ->
  NoDup (map id (zones g)) ->
  exists g', gameState (aiTurn a) = Some g'
             /\ Permutation (zones g') (zones g).
Proof.
  intros Hg Hnd.
  destruct (status_eqb_spec (status g) ai_turn) as [Hs|Hs].
  2:{ rewrite (aiTurn_idle a g Hg Hs). eauto. }
  destruct (filter (fun c => isValidMove c (currentSuit g) (currentRank g))
                   (aiHand g)) as [|first rest] eqn:Ef.
  - enter aiTurn Hg Hs. rewrite Ef.
    destruct (pop (deck g)) as [[d x]|] eqn:Ep; eexists;
      (split; [reflexivity|]); unfold zones; simpl; [|reflexivity].
    apply pop_some_inv in Ep. rewrite Ep. apply perm_draw_ai.
  - destruct (aiTurn_play a g first rest Hg Hs Ef)
      as (g' & E & H1 & H2 & H3 & H4 & _).
    exists g'. rewrite E. split; [reflexivity|].
    unfold zones. rewrite H1, H2, H3, H4.
    apply perm_play_ai, removeById_perm.
    + now apply NoDup_ids_aiHand.
    + pose proof (chooseCard_In first rest) as Hin.
      set (c := chooseCard first (first :: rest)) in *.
      rewrite <- Ef in Hin. now apply filter_In in Hin.
Qed.

(** C8, as the code has it. Take a set [U] of cards with pairwise
    different identifiers (the 52 cards of a fresh deck are one) and a
    state whose four zones together hold exactly the cards of [U], each
    once.  After a draw, a suit choice, a turn of the computer, or a play
    by the player of a card that, if the play is accepted, is in the
    player's hand, the four zones again hold exactly the cards of [U],
    each once. *)
Theorem C8_conservation (U : list Card) (o : Op) (a : App) (g : GameState) :
  NoDup (map id U) ->
  gameState a = Some g ->
  Permutation (zones g) U ->
  (forall card, o = Play card -> isPlayable g card = true ->
                In card (playerHand g)) ->
  exists g',
    gameState (step o a) = Some g'
    /\ Permutation (zones g') U
    /\ NoDup (zones g')
    /\ List.length (zones g') = List.length U.
Proof.
  intros HU Hg Hz Hplay.
  assert (NoDup (map id (zones g))) as Hnd.
  { eapply Permutation_NoDup; [|exact HU].
    symmetry. now apply Permutation_map. }
  assert (exists g', gameState (step o a) = Some g'
                     /\ Permutation (zones g') (zones g)) as (g' & E & Hp).
  { destruct o as [|card|s|]; simpl.
    - now apply draw_zones.
    - apply play_zones; auto.
    - now apply chooseSuit_zones.
    - now apply aiTurn_zones. }
  exists g'. split; [assumption|].
  assert (Permutation (zones g') U) as HpU by (now rewrite Hp).
  split; [assumption|]. split.
  - apply NoDup_map_inv with (f := id).
    eapply Permutation_NoDup; [|exact HU].
    symmetry. now apply Permutation_map.
  - now apply Permutation_length.
Qed.

(* ------------------------------------------------------------------ *)
(** *** Deciding permutations and repetitions on concrete states *)
(* ------------------------------------------------------------------ *)

Lemma card_eqb_eq (c d : Card) : card_eqb c d = true <-> c = d.
Proof.
  destruct c as [i s r], d as [i' s' r']. unfold card_eqb. simpl.
  rewrite !andb_true_iff, String.eqb_eq, suit_eqb_eq, rank_eqb_eq.
  split; [intros [[-> ->] ->]; reflexivity | intros [= -> -> ->]; auto].
Qed.

Lemma takeOut_perm (x : Card) (l l' : list Card) :
  takeOut x l = Some l' -> Permutation l (x :: l').
Proof.
  revert l'. induction l as [|y rest IH]; simpl; intros l' H; [discriminate|].
  destruct (card_eqb x y) eqn:E.
  - apply card_eqb_eq in E. injection H as <-. now subst.
  - destruct (takeOut x rest) as [rest'|]; [|discriminate].
    injection H as <-. rewrite perm_swap. apply perm_skip. now apply IH.
Qed.

Lemma permb_sound (l l' : list Card) : permb l l' = true -> Permutation l l'.
Proof.
  revert l'. induction l as [|x rest IH]; simpl; intros l' H.
  - destruct l'; [constructor | discriminate].
  - destruct (takeOut x l') as [l''|] eqn:E; [|discriminate].
    apply takeOut_perm in E. rewrite E. apply perm_skip. now apply IH.
Qed.

Lemma distinctb_complete {A : Type} (eqb : A -> A -> bool) (l : list A) :
  (forall x y, eqb x y = true <-> x = y) ->
  NoDup l -> distinctb eqb l = true.
Proof.
  intros Heq. induction 1 as [|x rest Hx _ IH]; simpl; [reflexivity|].
  rewrite IH, andb_true_r. apply negb_true_iff.
  destruct (existsb (eqb x) rest) eqn:E; [|reflexivity].
  apply existsb_exists in E as (y & Hy & Exy).
  apply Heq in Exy. subst y. contradiction.
Qed.

(** C8, as stated, fails for a play of a card that the player does not
    hold. In the game started from [sampleDeck] the zones hold the 52
    cards of the deck, each once.  The nine of spades is in the
    computer's hand and matches the target's rank; playing it puts it on
    the discard pile and takes nothing from the player's hand, so the
    zones hold 53 cards, the nine of spades twice. *)
Lemma C8_counterexample :
  exists g g',
    gameState sampleStart = Some g
    /\ Permutation (zones g) sampleDeck
    /\ NoDup (zones g)
    /\ gameState (step (Play (cardOf spades R9)) sampleStart) = Some g'
    /\ List.length (zones g') = 53
    /\ ~ NoDup (zones g')
    /\ ~ Permutation (zones g') sampleDeck.
Proof.
  do 2 eexists. split; [reflexivity|].
  split; [apply permb_sound; vm_compute; reflexivity|].
  split; [apply (distinctb_NoDup card_eqb _ card_eqb_eq);
          vm_compute; reflexivity|].
  split; [reflexivity|]. split; [reflexivity|]. split.
  - intros H. apply (distinctb_complete card_eqb _ card_eqb_eq) in H.
    vm_compute in H. discriminate.
  - intros H. apply Permutation_length in H. vm_compute in H. discriminate.
Qed.

Lemma C8_conservation_witness :
  exists g',
    gameState (step (Play (cardOf hearts RA)) sampleStart) = Some g'
    /\ Permutation (zones g') sampleDeck
    /\ List.length (zones g') = 52.
Proof.
  edestruct (C8_conservation sampleDeck (Play (cardOf hearts RA)) sampleStart)
    as (g' & E & Hp & _ & Hl).
  - apply (distinctb_NoDup String.eqb _ String.eqb_eq). vm_compute. reflexivity.
  - reflexivity.
  - apply permb_sound. vm_compute. reflexivity.
  - intros card [= <-] _. simpl. auto.
  - exists g'. auto.
Defined.

(* ================================================================== *)
(** ** Initialization *)
(* ================================================================== *)

(** The loop stops behind the longest prefix of eights. *)
Lemma skipEights_split (rest : list Card) (i : nat) :
  exists pre,
    (forall c, In c pre -> rank c = R8)
    /\ skipEights rest i = i + List.length pre
    /\ (rest = pre
        \/ exists top post, rest = pre ++ top :: post /\ rank top <> R8).
Proof.
  revert i. induction rest as [|c rest IH]; intros i; simpl.
  - exists []. simpl. split; [tauto|]. split; [lia | now left].
  - destruct (rank_eqb_spec (rank c) R8) as [H8|H8].
    + destruct (IH (S i)) as (pre & Hall & Hidx & Hshape).
      exists (c :: pre). simpl. split; [|split].
      * intros x [<- | Hx]; auto.
      * lia.
      * destruct Hshape as [-> | (top & post & -> & Htop)];
          [now left | right; eauto].
    + exists []. simpl. split; [tauto|]. split; [lia|].
      right. exists c, rest. auto.
Qed.

Lemma spliceOut_middle {A : Type} (pre post : list A) (x : A) :
  spliceOut (List.length pre) (pre ++ x :: post) = pre ++ post.
Proof.
  unfold spliceOut. rewrite firstn_app, Nat.sub_diag, firstn_all. simpl.
  rewrite app_nil_r. f_equal.
  induction pre as [|y pre IH]; simpl; [reflexivity | exact IH].
Qed.

(** What the [try] block does, by the shape of the cards left after the
    two hands are dealt. *)
Lemma initGameBody_cases (fresh : list Card) :
  let rest := skipn 8 (skipn 8 fresh) in
  ((forall c, In c rest -> rank c = R8)
   /\ exists m, initGameBody fresh = Thrown m)
  \/ (exists pre top post,
         rest = pre ++ top :: post
         /\ (forall c, In c pre -> rank c = R8)
         /\ rank top <> R8
         /\ initGameBody fresh
            = Dealt {| deck := pre ++ post;
                       discardPile := [top];
                       playerHand := firstn 8 fresh;
                       aiHand := firstn 8 (skipn 8 fresh);
                       currentSuit := suit top;
                       currentRank := rank top;
                       status := player_turn;
                       winner := None;
                       lastAction := "游戏开始！轮到你了。" |}).
Proof.
  intros rest. unfold initGameBody.
  change (skipn 8 (skipn 8 fresh)) with rest. clearbody rest.
  destruct (skipEights_split rest 0) as (pre & Hall & Hidx & Hshape).
  rewrite Hidx. simpl.
  destruct Hshape as [E | (top & post & E & Htop)].
  - left. subst rest. split; [assumption|].
    rewrite (proj2 (nth_error_None pre _) (le_n _)). eauto.
  - right. exists pre, top, post.
    split; [assumption|]. split; [assumption|]. split; [assumption|].
    rewrite E. rewrite nth_error_app2, Nat.sub_diag by lia. simpl.
    now rewrite spliceOut_middle.
Qed.

(** A fresh deck has a card that is not an eight among the cards left
    after the hands are dealt: it has four eights at most, and 36 cards
    are left. *)
Lemma fresh_rest_has_non_eight (fresh : list Card) :
  isFreshDeck fresh ->
  exists c, In c (skipn 8 (skipn 8 fresh)) /\ rank c <> R8.
Proof.
  intros (_ & Hfaces & Hlen).
  set (rest := skipn 8 (skipn 8 fresh)).
  assert (List.length rest = 36) as Hrest
    by (unfold rest; rewrite !length_skipn; lia).
  destruct (forallb (fun c => rank_eqb (rank c) R8) rest) eqn:Eall.
  2:{ assert (existsb (fun c => negb (rank_eqb (rank c) R8)) rest = true) as Ex.
      { clear - Eall. induction rest as [|c rest IH]; simpl in *;
          [discriminate|].
        destruct (rank_eqb (rank c) R8); simpl in *; auto. }
      apply existsb_exists in Ex as (c & Hc & H8).
      exists c. split; [assumption|].
      apply negb_true_iff in H8. now apply rank_eqb_neq. }
  exfalso.
  assert (NoDup (map face rest)) as Hnd.
  { rewrite <- (firstn_skipn 8 fresh), <- (firstn_skipn 8 (skipn 8 fresh)),
      !map_app in Hfaces.
    now apply NoDup_app_remove_l, NoDup_app_remove_l in Hfaces. }
  assert (incl (map face rest)
               [(hearts, R8); (diamonds, R8); (clubs, R8); (spades, R8)])
    as Hincl.
  { intros p Hp. apply in_map_iff in Hp as (c & <- & Hc).
    rewrite forallb_forall in Eall. specialize (Eall c Hc).
    apply rank_eqb_eq in Eall. unfold face. rewrite Eall.
    destruct (suit c); simpl; auto. }
  apply NoDup_incl_length in Hincl; [|assumption].
  rewrite length_map, Hrest in Hincl. simpl in Hincl. lia.
Qed.

(** C3, as the code has it. From a deck of 52 cards [initGame] deals the
    first eight cards to the player and the next eight to the computer.
    The initial discard is the first card that is not an eight among the
    36 cards left, scanning from index 0, which is the end opposite to
    the one draws are taken from; it is removed from the deck.  The
    initialization throws exactly when every card left is an eight,
    which a fresh deck excludes.  Otherwise the deck holds 35 cards, each
    hand 8, the discard pile 1, the target is the discard's suit and
    rank, the status is [player_turn] and there is no winner. *)
Theorem C3_initialize (fresh : list Card) (a : App) :
  List.length fresh = 52 ->
  let rest := skipn 8 (skipn 8 fresh) in
  ((exists m, initGameBody fresh = Thrown m)
   <-> (forall c, In c rest -> rank c = R8))
  /\ (isFreshDeck fresh -> exists g, initGameBody fresh = Dealt g)
  /\ (forall g,
         initGameBody fresh = Dealt g ->
         initGame fresh a = setGameState a g
         /\ exists pre top post,
             rest = pre ++ top :: post
             /\ (forall c, In c pre -> rank c = R8)
             /\ rank top <> R8
             /\ playerHand g = firstn 8 fresh
             /\ aiHand g = firstn 8 (skipn 8 fresh)
             /\ discardPile g = [top]
             /\ deck g = pre ++ post
             /\ List.length (deck g) = 35
             /\ List.length (playerHand g) = 8
             /\ List.length (aiHand g) = 8
             /\ List.length (discardPile g) = 1
             /\ currentSuit g = suit top
             /\ currentRank g = rank top
             /\ status g = player_turn
             /\ winner g = None).
Proof.
  intros Hlen rest.
  assert (List.length rest = 36) as Hrest
    by (unfold rest; rewrite !length_skipn; lia).
  pose proof (initGameBody_cases fresh) as Hcases. cbv zeta in Hcases.
  fold rest in Hcases.
  split; [|split].
  - split.
    + intros (m & Hm).
      destruct Hcases as [[Hall _] | (pre & top & post & _ & _ & _ & E)];
        [assumption | congruence].
    + intros Hall.
      destruct Hcases as [[_ Hm] | (pre & top & post & E & _ & Htop & _)];
        [assumption|].
      exfalso. apply Htop, Hall. rewrite E. apply in_elt.
  - intros Hfresh.
    destruct (fresh_rest_has_non_eight fresh Hfresh) as (c & Hc & H8).
    destruct Hcases as [[Hall _] | (pre & top & post & _ & _ & _ & E)];
      [|eauto].
    exfalso. apply H8, Hall, Hc.
  - intros g Hg. split; [unfold initGame; now rewrite Hg|].
    destruct Hcases as [[_ (m & Hm)] | (pre & top & post & E & Hall & Htop & Ed)];
      [congruence|].
    rewrite Ed in Hg. injection Hg as <-.
    cbn [deck discardPile playerHand aiHand currentSuit currentRank
         status winner].
    exists pre, top, post.
    assert (List.length (pre ++ post) = 35) as Hdeck.
    { rewrite E, !length_app in Hrest. simpl in Hrest.
      rewrite length_app. lia. }
    assert (List.length (firstn 8 fresh) = 8) as Hp
      by (rewrite length_firstn; lia).
    assert (List.length (firstn 8 (skipn 8 fresh)) = 8) as Ha
      by (rewrite length_firstn, length_skipn; lia).
    repeat split; assumption.
Qed.

Lemma C3_initialize_witness :
  exists g,
    initGame sampleDeck mount = setGameState mount g
    /\ discardPile g = [cardOf hearts R9]
    /\ List.length (deck g) = 35
    /\ List.length (playerHand g) = 8
    /\ List.length (aiHand g) = 8
    /\ currentSuit g = hearts /\ currentRank g = R9
    /\ status g = player_turn.
Proof.
  destruct (C3_initialize sampleDeck mount eq_refl) as (_ & _ & H).
  edestruct H as (E & pre & top & post & _ & _ & _ & _ & _
                  & Hd & _ & L1 & L2 & L3 & _ & Hs & Hr & Hst & _).
  - reflexivity.
  - eexists. split; [exact E|]. repeat split; assumption.
Defined.

(** C3, as stated, fails on "scanning from the deck's current top, the
    end from which draws occur". After the hands are dealt from
    [sampleDeck], the nine of hearts is at index 0 of the cards left and
    the queen of clubs is the last one, the card that the first draw
    takes.  Neither is an eight.  The initial discard is the nine of
    hearts, not the queen of clubs. *)
Lemma C3_counterexample :
  exists g front g',
    initGameBody sampleDeck = Dealt g
    /\ discardPile g = [cardOf hearts R9]
    /\ topNonEight (skipn 8 (skipn 8 sampleDeck)) = Some (cardOf clubs RQ)
    /\ pop (skipn 8 (skipn 8 sampleDeck)) = Some (front, cardOf clubs RQ)
    /\ gameState (handleDraw sampleStart) = Some g'
    /\ playerHand g' = playerHand g ++ [cardOf clubs RQ]
    /\ discardPile g <> [cardOf clubs RQ].
Proof.
  do 3 eexists. repeat split. discriminate.
Qed.

(* ================================================================== *)
(** ** Win detection *)
(* ================================================================== *)

Lemma reachable_run (ops : list Op) (a : App) :
  reachable a -> reachable (run ops a).
Proof.
  revert a. induction ops as [|o ops IH]; intros a Ha; simpl; [assumption|].
  apply IH. now constructor.
Qed.

(** X6. The player's last card, when it is not an eight, wins: on the
    player's turn, a valid card other than an eight whose removal leaves
    the hand empty ends the game with status [game_over] and the player
    as the winner. *)
Lemma play_last_card_wins (a : App) (g : GameState) (card : Card) :
  gameState a = Some g -> status g = player_turn ->
  isValidMove card (currentSuit g) (currentRank g) = true ->
  rank card <> R8 ->
  removeById card (playerHand g) = [] ->
  exists g',
    gameState (handlePlayCard card a) = Some g'
    /\ playerHand g' = []
    /\ status g' = game_over
    /\ winner g' = Some player.
Proof.
  intros Hg Hs Hv H8 Hlast. enter handlePlayCard Hg Hs. rewrite Hv.
  apply rank_eqb_neq in H8. rewrite H8. cbn [negb].
  unfold settle, checkWinner. cbn [playerHand]. rewrite Hlast.
  eexists. split; [reflexivity|]. simpl. auto.
Qed.

(** X7. The computer's last card wins, also when it is an eight: if the
    player holds a card and the computer's turn leaves the computer's
    hand empty, the game ends with status [game_over] and the computer
    as the winner. *)
Lemma aiTurn_last_card_wins (a : App) (g : GameState) :
  gameState a = Some g -> status g = ai_turn ->
  playerHand g <> [] -> aiHand g <> [] ->
  forall g',
    gameState (aiTurn a) = Some g' ->
    aiHand g' = [] ->
    status g' = game_over /\ winner g' = Some ai.
Proof.
  intros Hg Hs Hp Ha g'. enter aiTurn Hg Hs.
  destruct (filter _ (aiHand g)) as [|first rest].
  - destruct (pop (deck g)) as [[d x]|]; simpl; intros [= <-]; simpl;
      intros H; [|contradiction].
    now apply app_eq_nil in H as [_ H].
  - unfold settle, checkWinner. cbn [playerHand aiHand].
    destruct (playerHand g) as [|p ps]; [contradiction|].
    destruct (removeById _ (aiHand g)) eqn:E; simpl; intros [= <-]; simpl;
      [auto | discriminate].
Qed.

(** C1, on the code. The invariant "a hand is empty exactly when the
    game is over with a winner" breaks when the player's last card is an
    eight.  In the game started from [sampleDeck], the player plays the
    hearts from ace to seven while the computer draws; the eight of
    hearts is then the last card.  Playing it empties the hand and gives
    [selecting_suit] with no winner; choosing a suit gives [ai_turn],
    still with an empty player's hand, a computer's hand that is not
    empty and no winner.  Both states are reachable. *)
Theorem C1_last_eight_is_not_a_win :
  let before := run (removelast lastEightTrace) sampleStart in
  let after := run lastEightTrace sampleStart in
  reachable before /\ reachable after
  /\ (exists g, gameState before = Some g
                /\ playerHand g = [] /\ aiHand g <> []
                /\ status g = selecting_suit /\ winner g = None)
  /\ (exists g, gameState after = Some g
                /\ playerHand g = [] /\ aiHand g <> []
                /\ status g = ai_turn /\ winner g = None).
Proof.
  intros before after.
  assert (reachable sampleStart) as H0
    by (constructor; apply sampleDeck_fresh).
  split; [now apply reachable_run|]. split; [now apply reachable_run|].
  split; eexists; (split; [vm_compute; reflexivity|]);
    simpl; repeat split; discriminate.
Qed.

(** The part of the invariant that the code keeps: in a running game the
    status is [game_over] exactly when there is a winner. *)
Lemma winnerConsistent_step (o : Op) (a : App) :
  pendingConsistent a -> winnerConsistent a -> winnerConsistent (step o a).
Proof.
  unfold pendingConsistent, winnerConsistent. intros Hpc H.
  destruct (gameState a) as [g|] eqn:Hg.
  2:{ destruct o; simpl;
        [unfold handleDraw | unfold handlePlayCard
         | unfold handleSuitSelection | unfold aiTurn];
        rewrite Hg; rewrite Hg; exact I. }
  assert (status g <> game_over -> winner g = None) as Hnone.
  { intros Hs. destruct (winner g) eqn:E; [|reflexivity].
    exfalso. apply Hs, H. discriminate. }
  destruct o as [|card|s|]; simpl.
  - unfold handleDraw. rewrite Hg.
    destruct (status_eqb_spec (status g) player_turn) as [Hp|Hp]; simpl;
      [|rewrite Hg; exact H].
    assert (winner g = None) as Hw by (apply Hnone; congruence).
    destruct (pop (deck g)) as [[d x]|]; simpl; rewrite Hw;
      [destruct (isValidMove x _ _)|]; split; congruence.
  - unfold handlePlayCard. rewrite Hg.
    destruct (status_eqb_spec (status g) player_turn) as [Hp|Hp]; simpl;
      [|rewrite Hg; exact H].
    assert (winner g = None) as Hw by (apply Hnone; congruence).
    destruct (isValidMove card _ _); simpl; [|rewrite Hg; exact H].
    destruct (rank_eqb (rank card) R8); simpl.
    + rewrite Hw. split; congruence.
    + match goal with |- context [settle a ?n] =>
        destruct (settle_cases a n) as (k & E & _ & _ & _ & _ & _ & _ & Hc)
      end.
      rewrite E. simpl.
      destruct Hc as [[_ ->] | (w & _ & Hgo & Hwin)]; simpl.
      * rewrite Hw. split; congruence.
      * rewrite Hgo, Hwin. split; congruence.
  - unfold handleSuitSelection. rewrite Hg.
    destruct (pendingEight a) as [c|] eqn:Hp; simpl.
    + assert (status g = selecting_suit) as Hs by (apply Hpc; discriminate).
      rewrite (Hnone ltac:(congruence)). split; congruence.
    + rewrite Hg. exact H.
  - destruct (status_eqb_spec (status g) ai_turn) as [Ha|Ha].
    2:{ rewrite (aiTurn_idle a g Hg Ha), Hg. exact H. }
    assert (winner g = None) as Hw by (apply Hnone; congruence).
    enter aiTurn Hg Ha.
    destruct (filter _ (aiHand g)) as [|first rest].
    + destruct (pop (deck g)) as [[d x]|]; simpl; rewrite Hw;
        [destruct (isValidMove x _ _)|]; split; congruence.
    + match goal with |- context [settle a ?n] =>
        destruct (settle_cases a n) as (k & E & _ & _ & _ & _ & _ & _ & Hc)
      end.
      rewrite E. simpl.
      destruct Hc as [[_ ->] | (w & _ & Hgo & Hwin)]; simpl.
      * rewrite Hw. split; congruence.
      * rewrite Hgo, Hwin. split; congruence.
Qed.

Lemma reachable_winnerConsistent (a : App) :
  reachable a -> winnerConsistent a.
Proof.
  induction 1 as [fresh _ | o a Hr IH].
  - unfold winnerConsistent, initGame, initGameBody.
    destruct (nth_error _ _); simpl; [|exact I]. split; congruence.
  - apply winnerConsistent_step; [|assumption].
    now apply reachable_pendingConsistent.
Qed.

(* ================================================================== *)
(** ** Initialization, beyond the first discard *)
(* ================================================================== *)

Lemma perm_deal (F1 F2 pre post : list Card) (top : Card) :
  Permutation ((pre ++ post) ++ [top] ++ F1 ++ F2)
              (F1 ++ F2 ++ pre ++ top :: post).
Proof.
  transitivity (top :: (pre ++ post) ++ F1 ++ F2).
  - symmetry. apply Permutation_middle.
  - rewrite (app_assoc F1 F2), (Permutation_app_comm (F1 ++ F2)).
    rewrite <- (Permutation_middle pre post top). simpl.
    now rewrite <- app_assoc.
Qed.

Lemma initGameBody_zones (fresh : list Card) (g : GameState) :
  initGameBody fresh = Dealt g -> Permutation (zones g) fresh.
Proof.
  intros Hg.
  destruct (initGameBody_cases fresh)
    as [[_ (m & Hm)] | (pre & top & post & E & _ & _ & Ed)]; [congruence|].
  rewrite Ed in Hg.
  match type of Hg with
  | Dealt ?r = Dealt _ => assert (r = g) as <- by congruence
  end.
  unfold zones. cbn [deck discardPile playerHand aiHand].
  eapply Permutation_trans; [apply perm_deal|].
  rewrite <- E, (firstn_skipn 8 (skipn 8 fresh)), (firstn_skipn 8 fresh).
  reflexivity.
Qed.

(** X1. The state that [initGame] stores holds every card of the deck it
    was given, each as often as the deck does: the four zones are a
    rearrangement of the deck, with as many cards, and without two cards
    of one identifier when the deck has none. *)
Lemma initGame_deals_every_card (fresh : list Card) (g : GameState) :
  initGameBody fresh = Dealt g ->
  Permutation (zones g) fresh
  /\ List.length (zones g) = List.length fresh
  /\ (NoDup (map id fresh) -> NoDup (map id (zones g))).
Proof.
  intros Hg. pose proof (initGameBody_zones fresh g Hg) as Hp.
  split; [assumption|]. split; [now apply Permutation_length|].
  intros Hnd. eapply Permutation_NoDup; [|exact Hnd].
  symmetry. now apply Permutation_map.
Qed.

Lemma initGame_deals_every_card_witness :
  exists g, initGameBody sampleDeck = Dealt g
            /\ Permutation (zones g) sampleDeck
            /\ List.length (zones g) = 52.
Proof.
  eexists. split; [reflexivity|].
  edestruct initGame_deals_every_card with (fresh := sampleDeck)
    as (Hp & Hl & _).
  - reflexivity.
  - split; [exact Hp | exact Hl].
Defined.

(** X2. With sixteen cards or fewer nothing is left after the two hands are
    dealt: [initGame] throws, stores the message as the error and leaves
    the game and the pending eight as they were. *)
Lemma initGame_short_deck (fresh : list Card) (a : App) :
  List.length fresh <= 16 ->
  exists message,
    initGameBody fresh = Thrown message
    /\ initGame fresh a = setError a message
    /\ gameState (initGame fresh a) = gameState a
    /\ pendingEight (initGame fresh a) = pendingEight a
    /\ error (initGame fresh a) = Some message.
Proof.
  intros Hlen.
  assert (skipn 8 (skipn 8 fresh) = []) as Hrest.
  { apply length_zero_iff_nil. rewrite !length_skipn. lia. }
  destruct (initGameBody_cases fresh)
    as [[_ (m & Hm)] | (pre & top & post & E & _)].
  - exists m. unfold initGame. rewrite Hm. auto.
  - rewrite Hrest in E. destruct pre; discriminate.
Qed.

Lemma initGame_short_deck_witness :
  exists message,
    initGame (firstn 16 sampleDeck) sampleStart
    = setError sampleStart message.
Proof.
  destruct (initGame_short_deck (firstn 16 sampleDeck) sampleStart)
    as (m & _ & E & _).
  - vm_compute. lia.
  - exists m. exact E.
Defined.

(** X3. A restart does not clear the pending eight.  If one is pending when
    [initGame] deals a new game, it is still pending in the new game, on
    the player's turn; a suit choice then acts on the new game: it sets
    the target to the chosen suit and rank eight over the fresh discard
    and passes the turn to the computer, with no card played. *)
Lemma restart_keeps_pending_eight
      (fresh : list Card) (a : App) (c : Card) (g : GameState) (s : Suit) :
  pendingEight a = Some c ->
  initGameBody fresh = Dealt g ->
  gameState (initGame fresh a) = Some g
  /\ status g = player_turn
  /\ pendingEight (initGame fresh a) = Some c
  /\ exists g',
      gameState (handleSuitSelection s (initGame fresh a)) = Some g'
      /\ status g' = ai_turn
      /\ currentSuit g' = s /\ currentRank g' = R8
      /\ deck g' = deck g /\ discardPile g' = discardPile g
      /\ playerHand g' = playerHand g /\ aiHand g' = aiHand g.
Proof.
  intros Hp Hg.
  assert (status g = player_turn) as Hs.
  { unfold initGameBody in Hg. destruct (nth_error _ _); [|discriminate].
    injection Hg as <-. reflexivity. }
  unfold initGame. rewrite Hg. simpl. repeat split; try assumption.
  destruct (chooseSuit_pending (setGameState a g) g c s eq_refl Hp)
    as (g2 & E & H1 & H2 & H3 & H4 & H5 & H6 & H7 & _).
  exists g2. rewrite E. simpl. auto 10.
Qed.

Lemma restart_keeps_pending_eight_witness :
  exists g',
    gameState
      (handleSuitSelection clubs
         (initGame sampleDeck (handlePlayCard (cardOf hearts R8) sampleStart)))
    = Some g'
    /\ status g' = ai_turn.
Proof.
  edestruct restart_keeps_pending_eight
    with (fresh := sampleDeck)
         (a := handlePlayCard (cardOf hearts R8) sampleStart)
         (s := clubs)
    as (_ & _ & _ & g' & E & Hs & _).
  - reflexivity.
  - reflexivity.
  - exists g'. split; [exact E | exact Hs].
Defined.

(* ================================================================== *)
(** ** The computer's turn without a valid card *)
(* ================================================================== *)

Lemma filter_nil_of_none {A : Type} (p : A -> bool) (l : list A) :
  (forall x, In x l -> p x = false) -> filter p l = [].
Proof.
  induction l as [|x l IH]; simpl; intros H; [reflexivity|].
  rewrite (H x (or_introl eq_refl)). apply IH. intros y Hy. apply H. now right.
Qed.

(** X4. On its turn, a computer without a valid card draws the last card of
    the deck into its hand and keeps the turn exactly when that card is
    valid against the target; with an empty deck it passes the turn.  In
    both cases the discard pile, the player's hand, the target and the
    winner stay as they were, and no card is played. *)
Lemma aiTurn_without_valid_card (a : App) (g : GameState) :
  gameState a = Some g ->
  status g = ai_turn ->
  (forall c, In c (aiHand g) ->
             isValidMove c (currentSuit g) (currentRank g) = false) ->
  exists g',
    gameState (aiTurn a) = Some g'
    /\ discardPile g' = discardPile g
    /\ playerHand g' = playerHand g
    /\ currentSuit g' = currentSuit g
    /\ currentRank g' = currentRank g
    /\ winner g' = winner g
    /\ (forall rest top,
           deck g = rest ++ [top] ->
           deck g' = rest
           /\ aiHand g' = aiHand g ++ [top]
           /\ status g'
              = (if isValidMove top (currentSuit g) (currentRank g)
                 then ai_turn else player_turn))
    /\ (deck g = [] ->
        deck g' = [] /\ aiHand g' = aiHand g /\ status g' = player_turn).
Proof.
  intros Hg Hs Hnone. enter aiTurn Hg Hs.
  rewrite (filter_nil_of_none _ _ Hnone).
  destruct (pop (deck g)) as [[d x]|] eqn:Ep.
  - apply pop_some_inv in Ep.
    eexists. split; [reflexivity|]. simpl. repeat split; try reflexivity.
    + rewrite Ep in H. now apply app_inj_tail in H as [-> _].
    + rewrite Ep in H. now apply app_inj_tail in H as [_ ->].
    + rewrite Ep in H. now apply app_inj_tail in H as [_ ->].
    + rewrite Ep in H. now destruct d.
    + rewrite Ep in H. now destruct d.
    + rewrite Ep in H. now destruct d.
  - apply pop_nil_inv in Ep.
    eexists. split; [reflexivity|]. simpl. repeat split; try reflexivity;
      try assumption.
    all: rewrite Ep in H; now destruct rest.
Qed.

Lemma aiTurn_without_valid_card_witness :
  exists g',
    gameState (aiTurn (handlePlayCard (cardOf hearts RA) sampleStart))
    = Some g'
    /\ discardPile g' = [cardOf hearts RA; cardOf hearts R9]
    /\ List.length (aiHand g') = 9
    /\ status g' = player_turn.
Proof.
  edestruct aiTurn_without_valid_card
    with (a := handlePlayCard (cardOf hearts RA) sampleStart)
    as (g' & E & Hd & _).
  - vm_compute. reflexivity.
  - reflexivity.
  - intros c Hc. vm_compute in Hc.
    repeat (destruct Hc as [<- | Hc]; [reflexivity|]). contradiction.
  - exists g'. split; [exact E|].
    vm_compute in E. injection E as <-. repeat split.
Defined.

(** X5. The player's hand is looked at first.  If it is empty when the
    computer plays a card, the game ends with the player as the winner,
    whatever is left in the computer's hand. *)
Lemma aiTurn_empty_player_hand (a : App) (g : GameState) :
  gameState a = Some g ->
  status g = ai_turn ->
  playerHand g = [] ->
  (exists c, In c (aiHand g)
             /\ isValidMove c (currentSuit g) (currentRank g) = true) ->
  exists g',
    gameState (aiTurn a) = Some g'
    /\ status g' = game_over
    /\ winner g' = Some player
    /\ List.length (discardPile g') = S (List.length (discardPile g)).
Proof.
  intros Hg Hs Hp (c & Hin & Hv). enter aiTurn Hg Hs.
  destruct (filter _ (aiHand g)) as [|first rest] eqn:Ef.
  - exfalso.
    assert (In c (filter (fun c => isValidMove c (currentSuit g) (currentRank g))
                         (aiHand g))) as H by (apply filter_In; auto).
    rewrite Ef in H. exact H.
  - unfold settle, checkWinner. cbn [playerHand]. rewrite Hp.
    eexists. split; [reflexivity|]. simpl. auto.
Qed.

Lemma aiTurn_empty_player_hand_witness :
  exists g',
    gameState lateWin = Some g'
    /\ status g' = game_over /\ winner g' = Some player.
Proof.
  edestruct aiTurn_empty_player_hand
    with (a := run lastEightTrace sampleStart) as (g' & E & Hs & Hw & _).
  - vm_compute. reflexivity.
  - reflexivity.
  - reflexivity.
  - exists (cardOf spades R9). split; [vm_compute; auto | reflexivity].
  - exists g'. split; [exact E|]. split; [exact Hs | exact Hw].
Defined.

(* ================================================================== *)
(** ** Invariants of a running game *)
(* ================================================================== *)

Lemma reachable_sampleStart : reachable sampleStart.
Proof. constructor. apply sampleDeck_fresh. Qed.

Lemma draw_idle (a : App) (g : GameState) :
  gameState a = Some g -> status g <> player_turn -> handleDraw a = a.
Proof.
  intros Hg Hs. unfold handleDraw. rewrite Hg.
  apply status_eqb_neq in Hs. now rewrite Hs.
Qed.

(** X8. In every state reachable from initialization, the status is
    [game_over] exactly when a winner is recorded. *)
Lemma game_over_iff_winner (a : App) (g : GameState) :
  reachable a -> gameState a = Some g ->
  (status g = game_over <-> winner g <> None).
Proof.
  intros Hr Hg. apply reachable_winnerConsistent in Hr.
  unfold winnerConsistent in Hr. now rewrite Hg in Hr.
Qed.

Lemma game_over_iff_winner_witness :
  exists g, gameState lateWin = Some g
            /\ (status g = game_over <-> winner g <> None).
Proof.
  eexists. split; [vm_compute; reflexivity|].
  apply (game_over_iff_winner lateWin).
  - apply reach_step, reachable_run, reachable_sampleStart.
  - vm_compute. reflexivity.
Defined.

(** X9. In every state reachable from initialization, an eight is pending
    exactly while the status is [selecting_suit]. *)
Lemma pending_iff_selecting_suit (a : App) (g : GameState) :
  reachable a -> gameState a = Some g ->
  (pendingEight a <> None <-> status g = selecting_suit).
Proof.
  intros Hr Hg. apply reachable_pendingConsistent in Hr.
  unfold pendingConsistent in Hr. now rewrite Hg in Hr.
Qed.

Lemma pending_iff_selecting_suit_witness :
  exists g,
    gameState (handlePlayCard (cardOf hearts R8) sampleStart) = Some g
    /\ (pendingEight (handlePlayCard (cardOf hearts R8) sampleStart) <> None
        <-> status g = selecting_suit).
Proof.
  eexists. split; [vm_compute; reflexivity|].
  apply pending_iff_selecting_suit.
  - apply (reach_step (Play (cardOf hearts R8))), reachable_sampleStart.
  - vm_compute. reflexivity.
Defined.

(** X10. A finished game stays finished: in a reachable state with status
    [game_over], drawing, playing any card, choosing any suit and the
    computer's turn all leave the whole state as it is. *)
Lemma game_over_is_final (a : App) (g : GameState) (o : Op) :
  reachable a -> gameState a = Some g -> status g = game_over ->
  step o a = a.
Proof.
  intros Hr Hg Hs. destruct o as [|card|s|]; simpl.
  - apply draw_idle with g; congruence.
  - apply play_rejects with g; [assumption|]. left. congruence.
  - apply chooseSuit_wrong_status with g; congruence.
  - apply aiTurn_idle with g; congruence.
Qed.

Lemma game_over_is_final_witness :
  step Draw lateWin = lateWin
  /\ step (ChooseSuit hearts) lateWin = lateWin
  /\ step Resolve lateWin = lateWin.
Proof.
  assert (reachable lateWin) as Hr
    by apply reach_step, reachable_run, reachable_sampleStart.
  assert (forall o, step o lateWin = lateWin) as Hfin.
  { intros o. eapply game_over_is_final;
      [exact Hr | vm_compute; reflexivity | reflexivity]. }
  repeat split; apply Hfin.
Defined.

Lemma step_status_cases (o : Op) (a : App) (g : GameState) :
  gameState a = Some g ->
  step o a = a
  \/ exists g',
      gameState (step o a) = Some g'
      /\ match o with
         | Draw =>
             status g = player_turn
             /\ (status g' = player_turn \/ status g' = ai_turn)
         | Play card =>
             status g = player_turn
             /\ (if rank_eqb (rank card) R8
                 then status g' = selecting_suit
                 else status g' = ai_turn \/ status g' = game_over)
         | ChooseSuit _ => status g' = ai_turn
         | Resolve =>
             status g = ai_turn
             /\ (status g' = player_turn \/ status g' = ai_turn
                 \/ status g' = game_over)
         end.
Proof.
  intros Hg. destruct o as [|card|s|]; simpl.
  - destruct (status_eqb_spec (status g) player_turn) as [Hs|Hs];
      [right | left; now apply draw_idle with g].
    destruct (snoc_cases (deck g)) as [Hd | (rest & top & Hd)].
    + destruct (draw_empty a g Hg Hs Hd) as (g' & E & _ & _ & Hst & _).
      exists g'. rewrite E. auto.
    + destruct (draw_nonempty a g rest top Hg Hs Hd)
        as (g' & E & _ & _ & Hst & _).
      exists g'. rewrite E. split; [reflexivity|]. split; [assumption|].
      rewrite Hst. destruct (isValidMove top _ _); auto.
  - destruct (status_eqb_spec (status g) player_turn) as [Hs|Hs];
      [|left; apply play_rejects with g; auto].
    destruct (isValidMove card (currentSuit g) (currentRank g)) eqn:Hv;
      [right | left; apply play_rejects with g; auto].
    destruct (rank_eqb_spec (rank card) R8) as [H8|H8].
    + destruct (play_eight a g card Hg Hs H8) as (g1 & E & Hst & _).
      exists g1. rewrite E. auto.
    + enter handlePlayCard Hg Hs. rewrite Hv. cbn [negb].
      apply rank_eqb_neq in H8. rewrite H8.
      match goal with |- context [settle a ?n] =>
        destruct (settle_cases a n) as (k & E & _ & _ & _ & _ & _ & _ & Hc)
      end.
      rewrite E. exists k. split; [reflexivity|]. split; [reflexivity|].
      destruct Hc as [[_ ->] | (w & _ & Hgo & _)]; simpl; auto.
  - destruct (pendingEight a) as [c|] eqn:Hp;
      [right | left; now apply chooseSuit_no_pending].
    destruct (chooseSuit_pending a g c s Hg Hp) as (g2 & E & _ & _ & Hst & _).
    exists g2. rewrite E. auto.
  - destruct (status_eqb_spec (status g) ai_turn) as [Hs|Hs];
      [right | left; now apply aiTurn_idle with g].
    destruct (aiTurn_status a g Hg Hs) as (g' & E & Hst & _).
    exists g'. auto.
Qed.

(** X11. The transitions of the status.  A step that changes the state is one
    of: a draw on the player's turn, ending in [player_turn] or
    [ai_turn]; a play on the player's turn, ending in [selecting_suit]
    for an eight and in [ai_turn] or [game_over] for another card; a suit
    choice, ending in [ai_turn]; a turn of the computer in [ai_turn],
    ending in [player_turn], [ai_turn] or [game_over].  No step ends in
    [dealing]. *)
Lemma step_transition (o : Op) (a : App) (g : GameState) :
  gameState a = Some g ->
  step o a = a
  \/ exists g',
      gameState (step o a) = Some g'
      /\ match o with
         | Draw =>
             status g = player_turn
             /\ (status g' = player_turn \/ status g' = ai_turn)
         | Play card =>
             status g = player_turn
             /\ (if rank_eqb (rank card) R8
                 then status g' = selecting_suit
                 else status g' = ai_turn \/ status g' = game_over)
         | ChooseSuit _ => status g' = ai_turn
         | Resolve =>
             status g = ai_turn
             /\ (status g' = player_turn \/ status g' = ai_turn
                 \/ status g' = game_over)
         end.
Proof. intros Hg. now apply step_status_cases. Qed.

Lemma step_transition_witness :
  exists g',
    gameState (step (Play (cardOf hearts RA)) sampleStart) = Some g'
    /\ (status g' = ai_turn \/ status g' = game_over).
Proof.
  destruct (step_transition (Play (cardOf hearts RA)) sampleStart _ eq_refl)
    as [H | (g' & E & _ & Hst)].
  - exfalso.
    apply (f_equal (fun a => option_map (fun g => List.length (discardPile g))
                                        (gameState a))) in H.
    vm_compute in H. discriminate.
  - exists g'. split; [exact E | exact Hst].
Defined.

(** X12. In a state reachable from initialization the status is never
    [dealing]. *)
Lemma never_dealing (a : App) (g : GameState) :
  reachable a -> gameState a = Some g -> status g <> dealing.
Proof.
  intros Hr. revert g. induction Hr as [fresh _ | o a Hr IH]; intros g Hg.
  - unfold initGame, initGameBody in Hg.
    destruct (nth_error _ _); simpl in Hg; [|discriminate].
    injection Hg as <-. discriminate.
  - destruct (gameState a) as [g0|] eqn:Hg0.
    + destruct (step_status_cases o a g0 Hg0) as [E | (g' & E & Ht)].
      * rewrite E in Hg. apply IH. congruence.
      * assert (g' = g) as -> by congruence.
        destruct o as [|card|s|].
        -- destruct Ht as [_ [H | H]]; rewrite H; discriminate.
        -- destruct Ht as [_ H]. destruct (rank_eqb (rank card) R8);
             [|destruct H as [H | H]]; rewrite H; discriminate.
        -- rewrite Ht; discriminate.
        -- destruct Ht as [_ [H | [H | H]]]; rewrite H; discriminate.
    + exfalso. destruct o; simpl in Hg;
        [unfold handleDraw in Hg | unfold handlePlayCard in Hg
         | unfold handleSuitSelection in Hg | unfold aiTurn in Hg];
        rewrite Hg0 in Hg; congruence.
Qed.

Lemma never_dealing_witness :
  exists g, gameState lateWin = Some g /\ status g <> dealing.
Proof.
  eexists. split; [vm_compute; reflexivity|].
  apply (never_dealing lateWin).
  - apply reach_step, reachable_run, reachable_sampleStart.
  - vm_compute. reflexivity.
Defined.

(* ================================================================== *)
(** ** The piles *)
(* ================================================================== *)

(** X13. No step takes a card back from the discard pile or puts one into the
    deck: a step keeps the discard pile or puts one card on its head, and
    keeps the deck or takes its last card; and a game once started is
    never unset. *)
Lemma piles_only_move_forward (o : Op) (a : App) (g : GameState) :
  gameState a = Some g ->
  exists g',
    gameState (step o a) = Some g'
    /\ (discardPile g' = discardPile g
        \/ exists c, discardPile g' = c :: discardPile g)
    /\ (deck g' = deck g \/ exists x, deck g = deck g' ++ [x]).
Proof.
  intros Hg. destruct o as [|card|s|]; simpl.
  - destruct (status_eqb_spec (status g) player_turn) as [Hs|Hs].
    + destruct (snoc_cases (deck g)) as [Hd | (rest & top & Hd)].
      * destruct (draw_empty a g Hg Hs Hd) as (g' & E & H1 & _ & _ & H4 & _).
        exists g'. rewrite E. split; [reflexivity|]. split; [auto|].
        left. congruence.
      * destruct (draw_nonempty a g rest top Hg Hs Hd)
          as (g' & E & H1 & _ & _ & H4 & _).
        exists g'. rewrite E. split; [reflexivity|]. split; [auto|].
        right. exists top. congruence.
    + rewrite (draw_idle a g Hg Hs). exists g; split; [assumption|]; split; left; reflexivity.
  - destruct (isPlayable g card) eqn:Hp.
    + apply isPlayable_iff in Hp as [Hs Hv].
      destruct (play_accepts a g card Hg Hs Hv) as (g' & E & H1 & _ & H3 & _).
      exists g'. split; [assumption|]. split; [right; eauto | auto].
    + rewrite (play_rejects a g card Hg); [exists g; split; [assumption|]; split; left; reflexivity|].
      unfold isPlayable in Hp. apply andb_false_iff in Hp as [Hp|Hp];
        [left; now apply status_eqb_neq | now right].
  - destruct (pendingEight a) as [c|] eqn:Hp.
    + destruct (chooseSuit_pending a g c s Hg Hp)
        as (g2 & E & _ & _ & _ & H1 & H2 & _).
      exists g2. rewrite E. auto.
    + rewrite (chooseSuit_no_pending a s Hp). exists g; split; [assumption|]; split; left; reflexivity.
  - destruct (status_eqb_spec (status g) ai_turn) as [Hs|Hs].
    2:{ rewrite (aiTurn_idle a g Hg Hs). exists g; split; [assumption|]; split; left; reflexivity. }
    destruct (filter (fun c => isValidMove c (currentSuit g) (currentRank g))
                     (aiHand g)) as [|first rest] eqn:Ef.
    + enter aiTurn Hg Hs. rewrite Ef.
      destruct (pop (deck g)) as [[d x]|] eqn:Ep; eexists;
        (split; [reflexivity|]); simpl; [|auto].
      apply pop_some_inv in Ep. split; [auto | right; eauto].
    + destruct (aiTurn_play a g first rest Hg Hs Ef)
        as (g' & E & H1 & H2 & _).
      exists g'. rewrite E. split; [reflexivity|]. split; [right; eauto | auto].
Qed.

Lemma piles_only_move_forward_witness :
  exists g',
    gameState (step Draw sampleStart) = Some g'
    /\ discardPile g' = [cardOf hearts R9]
    /\ List.length (deck g') = 34.
Proof.
  destruct (piles_only_move_forward Draw sampleStart _ eq_refl)
    as (g' & E & _ & _).
  exists g'. split; [exact E|].
  vm_compute in E. injection E as <-. split; reflexivity.
Defined.

(* ------------------------------------------------------------------ *)
(** *** The target and the top of the discard pile *)
(* ------------------------------------------------------------------ *)

Lemma targetOnTop_init (fresh : list Card) :
  targetOnTop (initGame fresh mount).
Proof.
  unfold targetOnTop, initGame, initGameBody.
  destruct (nth_error _ _); simpl; auto.
Qed.

Lemma targetOnTop_step (o : Op) (a : App) :
  pendingConsistent a -> targetOnTop a -> targetOnTop (step o a).
Proof.
  unfold pendingConsistent, targetOnTop. intros Hpc H.
  destruct (gameState a) as [g|] eqn:Hg.
  2:{ destruct o; simpl;
        [unfold handleDraw | unfold handlePlayCard
         | unfold handleSuitSelection | unfold aiTurn];
        rewrite Hg; rewrite Hg; exact I. }
  destruct (discardPile g) as [|top pile] eqn:Hd; [contradiction|].
  destruct o as [|card|s|]; simpl.
  - unfold handleDraw. rewrite Hg.
    destruct (status_eqb_spec (status g) player_turn) as [Hp|Hp]; simpl;
      [|rewrite Hg, Hd; exact H].
    rewrite Hp in H. simpl in H.
    destruct (pop (deck g)) as [[d x]|]; simpl; rewrite Hd;
      [destruct (isValidMove x _ _)|]; exact H.
  - unfold handlePlayCard. rewrite Hg.
    destruct (status_eqb_spec (status g) player_turn) as [Hp|Hp]; simpl;
      [|rewrite Hg, Hd; exact H].
    destruct (isValidMove card _ _); simpl; [|rewrite Hg, Hd; exact H].
    destruct (rank_eqb_spec (rank card) R8) as [H8|H8]; simpl.
    + auto.
    + unfold settle. destruct (checkWinner _); simpl; auto.
  - unfold handleSuitSelection. rewrite Hg.
    destruct (pendingEight a) as [c|] eqn:Hp; simpl.
    + assert (status g = selecting_suit) as Hs by (apply Hpc; discriminate).
      rewrite Hs in H. simpl in H. destruct H as [H8 _].
      rewrite Hd. split; [congruence | intros Hn; contradiction].
    + rewrite Hg, Hd, Hp. exact H.
  - destruct (status_eqb_spec (status g) ai_turn) as [Ha|Ha].
    2:{ rewrite (aiTurn_idle a g Hg Ha), Hg, Hd. exact H. }
    rewrite Ha in H. simpl in H.
    enter aiTurn Hg Ha.
    destruct (filter _ (aiHand g)) as [|first rest].
    + destruct (pop (deck g)) as [[d x]|]; simpl; rewrite Hd;
        [destruct (isValidMove x _ _)|]; exact H.
    + set (c := chooseCard first (first :: rest)).
      assert (rank c <> R8 ->
              (if rank_eqb (rank c) R8
               then pickSuit (removeById c (aiHand g)) else suit c) = suit c)
        as Hsuit.
      { intros Hn. apply rank_eqb_neq in Hn. now rewrite Hn. }
      unfold settle. destruct (checkWinner _); simpl; auto.
Qed.

Lemma reachable_targetOnTop (a : App) : reachable a -> targetOnTop a.
Proof.
  induction 1 as [fresh _ | o a Hr IH].
  - apply targetOnTop_init.
  - apply targetOnTop_step; [|assumption].
    now apply reachable_pendingConsistent.
Qed.

(** X14. In every state reachable from initialization the discard pile is
    not empty and the target follows its top card: outside
    [selecting_suit] the target rank is the top card's rank and, unless
    that card is an eight, the target suit is its suit; in
    [selecting_suit] the top card is an eight, the pending one. *)
Lemma target_follows_top_discard (a : App) (g : GameState) :
  reachable a -> gameState a = Some g ->
  exists top pile,
    discardPile g = top :: pile
    /\ (status g <> selecting_suit ->
        currentRank g = rank top
        /\ (rank top <> R8 -> currentSuit g = suit top))
    /\ (status g = selecting_suit ->
        rank top = R8 /\ pendingEight a = Some top).
Proof.
  intros Hr Hg. apply reachable_targetOnTop in Hr.
  unfold targetOnTop in Hr. rewrite Hg in Hr.
  destruct (discardPile g) as [|top pile]; [contradiction|].
  exists top, pile. split; [reflexivity|].
  destruct (status_eqb_spec (status g) selecting_suit) as [Hs|Hs];
    split; intros Hs'; [contradiction | assumption | assumption | contradiction].
Qed.

Lemma target_follows_top_discard_witness :
  exists g top pile,
    gameState (run lastEightTrace sampleStart) = Some g
    /\ discardPile g = top :: pile
    /\ currentRank g = rank top.
Proof.
  edestruct (target_follows_top_discard (run lastEightTrace sampleStart))
    as (top & pile & Hd & Hout & _).
  - apply reachable_run, reachable_sampleStart.
  - vm_compute. reflexivity.
  - eexists. exists top, pile. split; [vm_compute; reflexivity|].
    split; [exact Hd|]. apply Hout. discriminate.
Defined.

(* ================================================================== *)
(** ** What the page lets happen *)
(* ================================================================== *)

Lemma events_play_in_hand (suits : list Suit) (g : GameState) (card : Card) :
  In (Play card) (events suits g) -> In card (playerHand g).
Proof.
  unfold events. intros H.
  apply in_app_or in H as [H | H].
  { destruct (deck g); [contradiction|]. destruct H as [H | []]. discriminate. }
  apply in_app_or in H as [H | H].
  { apply in_map_iff in H as (c & [= ->] & Hc). exact Hc. }
  apply in_app_or in H as [H | H].
  - destruct (status_eqb _ selecting_suit); [|contradiction].
    apply in_map_iff in H as (s & E & _). discriminate.
  - destruct (status_eqb _ ai_turn); [|contradiction].
    destruct H as [H | []]. discriminate.
Qed.

(** On the player's turn, with an empty deck and no valid card in the
    player's hand, no move that the page offers changes the state. *)
Lemma blocked_turn_moves_idle
      (suits : list Suit) (a : App) (g : GameState) (o : Op) :
  gameState a = Some g ->
  status g = player_turn ->
  deck g = [] ->
  (forall c, In c (playerHand g) ->
             isValidMove c (currentSuit g) (currentRank g) = false) ->
  In o (events suits g) ->
  step o a = a.
Proof.
  intros Hg Hs Hd Hnone Ho.
  destruct o as [|card|s|]; simpl.
  - exfalso. unfold events in Ho. rewrite Hd, Hs in Ho. simpl in Ho.
    rewrite app_nil_r in Ho.
    apply in_map_iff in Ho as (c & E & _). discriminate.
  - apply play_rejects with g; [assumption|]. right.
    apply Hnone. now apply events_play_in_hand with suits.
  - exfalso. unfold events in Ho. rewrite Hd, Hs in Ho. simpl in Ho.
    rewrite app_nil_r in Ho.
    apply in_map_iff in Ho as (c & E & _). discriminate.
  - exfalso. unfold events in Ho. rewrite Hd, Hs in Ho. simpl in Ho.
    rewrite app_nil_r in Ho.
    apply in_map_iff in Ho as (c & E & _). discriminate.
Qed.

Lemma driven_zones (suits : list Suit) (fresh : list Card) (a : App) :
  driven suits fresh a ->
  forall g, gameState a = Some g -> Permutation (zones g) fresh.
Proof.
  induction 1 as [Hfresh | o a g0 Hd IH Hg0 Ho]; intros g Hg.
  - unfold initGame in Hg.
    destruct (initGameBody fresh) as [m | g1] eqn:E; simpl in Hg;
      [discriminate|].
    injection Hg as <-. now apply initGameBody_zones.
  - pose proof (IH g0 Hg0) as Hp0.
    assert (NoDup (map id fresh)) as Hids.
    { clear - Hd. induction Hd as [[H _] | ]; assumption. }
    assert (NoDup (map id (zones g0))) as Hnd.
    { eapply Permutation_NoDup; [|exact Hids].
      symmetry. now apply Permutation_map. }
    assert (exists g', gameState (step o a) = Some g'
                       /\ Permutation (zones g') (zones g0))
      as (g' & E & Hp).
    { destruct o as [|card|s|]; simpl.
      - now apply draw_zones.
      - apply play_zones; auto. intros _.
        now apply events_play_in_hand with suits.
      - now apply chooseSuit_zones.
      - now apply aiTurn_zones. }
    assert (g' = g) as -> by congruence.
    now rewrite Hp.
Qed.

(** X16. No card is lost or doubled by what the page offers.  In a game
    started from a fresh deck and driven by draws from a non-empty draw
    pile, plays of cards of the player's hand, suit choices while a suit
    is being selected and turns of the computer, the four zones always
    hold exactly the 52 cards of that deck, each once. *)
Lemma driven_game_keeps_the_deck
      (suits : list Suit) (fresh : list Card) (a : App) (g : GameState) :
  driven suits fresh a ->
  gameState a = Some g ->
  Permutation (zones g) fresh
  /\ NoDup (zones g)
  /\ List.length (zones g) = 52.
Proof.
  intros Hd Hg. pose proof (driven_zones suits fresh a Hd g Hg) as Hp.
  assert (isFreshDeck fresh) as (Hids & _ & Hlen).
  { clear - Hd. induction Hd; assumption. }
  split; [assumption|]. split.
  - apply NoDup_map_inv with (f := id).
    eapply Permutation_NoDup; [|exact Hids].
    symmetry. now apply Permutation_map.
  - rewrite <- Hlen. now apply Permutation_length.
Qed.

Lemma driven_game_keeps_the_deck_witness :
  exists g,
    gameState (step Resolve (step (Play (cardOf hearts RA)) sampleStart))
    = Some g
    /\ List.length (zones g) = 52.
Proof.
  eexists. split; [vm_compute; reflexivity|].
  eapply (driven_game_keeps_the_deck [hearts; diamonds; clubs; spades]
            sampleDeck
            (step Resolve (step (Play (cardOf hearts RA)) sampleStart))).
  - eapply driven_step.
    + eapply driven_step.
      * apply driven_init. apply sampleDeck_fresh.
      * vm_compute. reflexivity.
      * vm_compute. auto.
    + vm_compute. reflexivity.
    + vm_compute. auto 20.
  - vm_compute. reflexivity.
Defined.

(* ================================================================== *)
(** ** More on the computer's suit and on winning *)
(* ================================================================== *)

(** X17. The computer names a suit that it holds: picked from a hand that is
    not empty, the suit is the suit of one of its cards. *)
Lemma pickSuit_in_hand (hand : list Card) :
  hand <> [] -> exists c, In c hand /\ suit c = pickSuit hand.
Proof.
  intros Hne. destruct hand as [|c0 rest]; [contradiction|].
  pose proof (pickSuit_max (c0 :: rest) (suit c0)) as Hmax.
  assert (1 <= suitCount (suit c0) (c0 :: rest)) as H1.
  { unfold suitCount. simpl.
    destruct (suit_eqb_spec (suit c0) (suit c0)); [simpl; lia | contradiction]. }
  assert (suitCount (pickSuit (c0 :: rest)) (c0 :: rest) <> 0) as Hpos by lia.
  clear Hmax H1. unfold suitCount in Hpos.
  destruct (filter (fun c => suit_eqb (suit c) (pickSuit (c0 :: rest)))
                   (c0 :: rest)) as [|c l] eqn:Ef.
  - now contradiction Hpos.
  - assert (In c (c :: l)) as Hin by now left.
    rewrite <- Ef in Hin. apply filter_In in Hin as [Hin Hs].
    exists c. split; [assumption | now apply suit_eqb_eq].
Qed.

Lemma pickSuit_in_hand_witness :
  exists c,
    In c [cardOf diamonds R2; cardOf spades R3; cardOf diamonds R9]
    /\ suit c = diamonds.
Proof.
  destruct (pickSuit_in_hand
              [cardOf diamonds R2; cardOf spades R3; cardOf diamonds R9])
    as (c & Hin & Hs).
  - discriminate.
  - exists c. split; [exact Hin | exact Hs].
Defined.

Lemma play_last_card_wins_witness :
  exists g',
    gameState (handlePlayCard (cardOf hearts R7) playerLastSeven) = Some g'
    /\ status g' = game_over /\ winner g' = Some player.
Proof.
  edestruct play_last_card_wins
    with (a := playerLastSeven) (card := cardOf hearts R7)
    as (g' & E & _ & Hs & Hw).
  - reflexivity.
  - reflexivity.
  - reflexivity.
  - vm_compute. discriminate.
  - reflexivity.
  - exists g'. split; [exact E|]. split; [exact Hs | exact Hw].
Defined.

Lemma aiTurn_last_card_wins_witness :
  exists g',
    gameState (aiTurn computerLastEight) = Some g'
    /\ status g' = game_over /\ winner g' = Some ai.
Proof.
  eexists. split; [reflexivity|].
  eapply (aiTurn_last_card_wins computerLastEight);
    try reflexivity; discriminate.
Defined.

(* ================================================================== *)
(** ** Drawing and then playing the drawn card *)
(* ================================================================== *)

Lemma removeById_snoc (hand : list Card) (card : Card) :
  ~ In (id card) (map id hand) -> removeById card (hand ++ [card]) = hand.
Proof.
  intros Hn. unfold removeById. rewrite filter_app. simpl.
  rewrite String.eqb_refl. simpl. rewrite app_nil_r.
  now apply removeById_absent.
Qed.

(** X18. A card drawn and played at once goes from the deck to the discard
    pile and leaves the hand as it was.  On the player's turn, if the
    last card of the deck is valid against the target and no card of the
    hand has its identifier, then drawing keeps the turn and playing the
    drawn card is accepted: afterwards the deck has lost that card, the
    card heads the discard pile, and the player's and the computer's
    hands are what they were before the draw. *)
Lemma draw_then_play (a : App) (g : GameState) (rest : list Card) (top : Card) :
  gameState a = Some g ->
  status g = player_turn ->
  deck g = rest ++ [top] ->
  isValidMove top (currentSuit g) (currentRank g) = true ->
  ~ In (id top) (map id (playerHand g)) ->
  exists g1 g2,
    gameState (handleDraw a) = Some g1
    /\ status g1 = player_turn
    /\ gameState (handlePlayCard top (handleDraw a)) = Some g2
    /\ deck g2 = rest
    /\ discardPile g2 = top :: discardPile g
    /\ playerHand g2 = playerHand g
    /\ aiHand g2 = aiHand g.
Proof.
  intros Hg Hs Hd Hv Hid.
  destruct (draw_nonempty a g rest top Hg Hs Hd)
    as (g1 & E & H1 & H2 & H3 & H4 & H5 & H6 & H7 & _).
  rewrite Hv in H3.
  assert (gameState (handleDraw a) = Some g1) as Hg1 by (now rewrite E).
  assert (isValidMove top (currentSuit g1) (currentRank g1) = true) as Hv1
    by (now rewrite H6, H7).
  destruct (play_accepts (handleDraw a) g1 top Hg1 H3 Hv1)
    as (g2 & E2 & K1 & K2 & K3 & K4).
  exists g1, g2. split; [assumption|]. split; [assumption|].
  split; [assumption|]. split; [congruence|]. split; [congruence|].
  split; [|congruence].
  rewrite K2, H2. now apply removeById_snoc.
Qed.

Lemma draw_then_play_witness :
  exists g2,
    gameState (handlePlayCard (cardOf hearts RK)
                 (handleDraw (lastCardState [cardOf hearts RK])))
    = Some g2
    /\ deck g2 = []
    /\ discardPile g2 = [cardOf hearts RK; cardOf hearts R5]
    /\ playerHand g2 = [cardOf clubs R2].
Proof.
  edestruct draw_then_play
    with (a := lastCardState [cardOf hearts RK]) (rest := @nil Card)
         (top := cardOf hearts RK)
    as (g1 & g2 & _ & _ & E & Hd & Hp & Hh & _).
  - reflexivity.
  - reflexivity.
  - reflexivity.
  - reflexivity.
  - vm_compute. intros [H | []]. discriminate.
  - exists g2. split; [exact E|]. split; [exact Hd|].
    split; [exact Hp | exact Hh].
Defined.

(* ================================================================== *)
(** ** The rule of the game at its three call sites *)
(* ================================================================== *)

Lemma matchesTarget_valid (c : Card) (s : Suit) (r : Rank) :
  isValidMove c s r = true <-> matchesTarget c s r.
Proof. apply isValidMove_iff. Qed.

Lemma matchesTarget_invalid (c : Card) (s : Suit) (r : Rank) :
  isValidMove c s r = false <-> ~ matchesTarget c s r.
Proof.
  rewrite <- matchesTarget_valid.
  destruct (isValidMove c s r); split; congruence.
Qed.

Lemma cons_neq_self {A : Type} (x : A) (l : list A) : l <> x :: l.
Proof.
  intros H. apply (f_equal (@List.length A)) in H. simpl in H. lia.
Qed.

(** The player's call site: a play is accepted exactly on the player's
    turn for a card that matches the target. *)
Lemma play_follows_rule (a : App) (g : GameState) (card : Card) :
  gameState a = Some g ->
  (status g = player_turn
   /\ matchesTarget card (currentSuit g) (currentRank g) ->
   exists g',
     gameState (handlePlayCard card a) = Some g'
     /\ discardPile g' = card :: discardPile g
     /\ playerHand g' = removeById card (playerHand g))
  /\ (~ (status g = player_turn
         /\ matchesTarget card (currentSuit g) (currentRank g)) ->
      handlePlayCard card a = a).
Proof.
  intros Hg. split.
  - intros [Hs Hm]. apply matchesTarget_valid in Hm.
    destruct (play_accepts a g card Hg Hs Hm) as (g' & E & H1 & H2 & _).
    exists g'. auto.
  - intros Hn. apply play_rejects with g; [assumption|].
    destruct (status_eqb_spec (status g) player_turn) as [Hs|Hs];
      [right | now left].
    apply matchesTarget_invalid. intros Hm. apply Hn. auto.
Qed.

(** The computer's call site: it plays a card of its hand that matches
    the target exactly when its hand has one, and otherwise plays
    nothing. *)
Lemma aiTurn_follows_rule (a : App) (g : GameState) :
  gameState a = Some g -> status g = ai_turn ->
  exists g',
    gameState (aiTurn a) = Some g'
    /\ ((exists c, In c (aiHand g)
                   /\ matchesTarget c (currentSuit g) (currentRank g)) ->
        exists c,
          In c (aiHand g)
          /\ matchesTarget c (currentSuit g) (currentRank g)
          /\ discardPile g' = c :: discardPile g
          /\ aiHand g' = removeById c (aiHand g)
          /\ deck g' = deck g)
    /\ ((forall c, In c (aiHand g) ->
                   ~ matchesTarget c (currentSuit g) (currentRank g)) ->
        discardPile g' = discardPile g
        /\ (aiHand g' = aiHand g \/ exists x, aiHand g' = aiHand g ++ [x])).
Proof.
  intros Hg Hs.
  destruct (filter (fun c => isValidMove c (currentSuit g) (currentRank g))
                   (aiHand g)) as [|first rest] eqn:Ef.
  - assert (forall c, In c (aiHand g) ->
                      ~ matchesTarget c (currentSuit g) (currentRank g))
      as Hnone.
    { intros c Hc Hm. apply matchesTarget_valid in Hm.
      assert (In c (filter (fun c => isValidMove c (currentSuit g)
                                                 (currentRank g))
                           (aiHand g))) as H by (apply filter_In; auto).
      rewrite Ef in H. exact H. }
    enter aiTurn Hg Hs. rewrite Ef.
    destruct (pop (deck g)) as [[d x]|]; eexists;
      (split; [reflexivity|]); simpl; split.
    + intros (c & Hc & Hm). exfalso. exact (Hnone c Hc Hm).
    + intros _. split; [reflexivity | right; eauto].
    + intros (c & Hc & Hm). exfalso. exact (Hnone c Hc Hm).
    + intros _. split; [reflexivity | now left].
  - destruct (aiTurn_play a g first rest Hg Hs Ef)
      as (g' & E & H1 & H2 & _ & H4 & _).
    pose proof (chooseCard_In first rest) as Hin.
    set (c := chooseCard first (first :: rest)) in *.
    rewrite <- Ef in Hin. apply filter_In in Hin as [Hin Hv].
    apply matchesTarget_valid in Hv.
    exists g'. rewrite E. split; [reflexivity|]. split.
    + intros _. exists c. auto 10.
    + intros Hnone. exfalso. exact (Hnone c Hin Hv).
Qed.

(** The render's call site: a card of the page is marked playable
    exactly on the player's turn when it matches the target, which is
    exactly when a click on it is accepted. *)
Lemma isPlayable_follows_rule (a : App) (g : GameState) (card : Card) :
  gameState a = Some g ->
  (isPlayable g card = true <->
   status g = player_turn
   /\ matchesTarget card (currentSuit g) (currentRank g))
  /\ (isPlayable g card = true <->
      exists g',
        gameState (handlePlayCard card a) = Some g'
        /\ discardPile g' = card :: discardPile g).
Proof.
  intros Hg.
  assert (isPlayable g card = true <->
          status g = player_turn
          /\ matchesTarget card (currentSuit g) (currentRank g)) as Hrule.
  { rewrite isPlayable_iff, matchesTarget_valid. reflexivity. }
  split; [exact Hrule|].
  destruct (play_follows_rule a g card Hg) as [Hyes Hno].
  split.
  - intros Hp. apply Hrule in Hp.
    destruct (Hyes Hp) as (g' & E & Hd & _). eauto.
  - intros (g' & E & Hd).
    destruct (isPlayable g card) eqn:Hp; [reflexivity|]. exfalso.
    assert (~ (status g = player_turn
               /\ matchesTarget card (currentSuit g) (currentRank g)))
      as Hn.
    { intros H. apply Hrule in H. congruence. }
    rewrite (Hno Hn), Hg in E. injection E as <-.
    exact (cons_neq_self card (discardPile g) Hd).
Qed.

(** C7. For every card, suit and rank, [isValidMove c s r] is true
    exactly when the card is an eight, or has suit [s], or has rank [r];
    and this rule is what decides at each of the three call sites.  The
    player's play of a card is accepted (the card leaves the hand and
    heads the discard pile) exactly on the player's turn when the card
    matches the target, and is a no-op otherwise.  On its turn the
    computer plays a card of its hand that matches the target whenever
    its hand holds one, and plays nothing (its hand only grows by a drawn
    card) when none matches.  A card of the page is marked playable
    exactly on the player's turn when it matches the target, which is
    exactly when a click on it is accepted. *)
Theorem C7_isValidMove_at_every_call_site :
  (forall c s r,
      isValidMove c s r = true <-> rank c = R8 \/ suit c = s \/ rank c = r)
  /\ (forall a g card,
         gameState a = Some g ->
         (status g = player_turn
          /\ matchesTarget card (currentSuit g) (currentRank g) ->
          exists g',
            gameState (handlePlayCard card a) = Some g'
            /\ discardPile g' = card :: discardPile g
            /\ playerHand g' = removeById card (playerHand g))
         /\ (~ (status g = player_turn
                /\ matchesTarget card (currentSuit g) (currentRank g)) ->
             handlePlayCard card a = a))
  /\ (forall a g,
         gameState a = Some g -> status g = ai_turn ->
         exists g',
           gameState (aiTurn a) = Some g'
           /\ ((exists c, In c (aiHand g)
                          /\ matchesTarget c (currentSuit g) (currentRank g)) ->
               exists c,
                 In c (aiHand g)
                 /\ matchesTarget c (currentSuit g) (currentRank g)
                 /\ discardPile g' = c :: discardPile g
                 /\ aiHand g' = removeById c (aiHand g)
                 /\ deck g' = deck g)
           /\ ((forall c, In c (aiHand g) ->
                          ~ matchesTarget c (currentSuit g) (currentRank g)) ->
               discardPile g' = discardPile g
               /\ (aiHand g' = aiHand g
                   \/ exists x, aiHand g' = aiHand g ++ [x])))
  /\ (forall a g card,
         gameState a = Some g ->
         (isPlayable g card = true <->
          status g = player_turn
          /\ matchesTarget card (currentSuit g) (currentRank g))
         /\ (isPlayable g card = true <->
             exists g',
               gameState (handlePlayCard card a) = Some g'
               /\ discardPile g' = card :: discardPile g)).
Proof.
  split; [exact isValidMove_iff|].
  split; [exact play_follows_rule|].
  split; [exact aiTurn_follows_rule|].
  exact isPlayable_follows_rule.
Qed.

(** The rule at work.  In the game started from [sampleDeck] the target
    is the nine of hearts: the ace of hearts is accepted, the king of
    spades is refused, and the nine of spades, which matches by rank
    only, is marked playable.  In [eightOnlyState] only the eight of
    clubs matches, and the computer plays it. *)
Lemma C7_isValidMove_at_every_call_site_witness :
  isValidMove (cardOf hearts RA) hearts R9 = true
  /\ (exists g',
         gameState (handlePlayCard (cardOf hearts RA) sampleStart) = Some g'
         /\ discardPile g' = [cardOf hearts RA; cardOf hearts R9])
  /\ handlePlayCard (cardOf spades RK) sampleStart = sampleStart
  /\ (exists g',
         gameState (aiTurn eightOnlyState) = Some g'
         /\ discardPile g' = [cardOf clubs R8; cardOf hearts R5])
  /\ (exists g,
         gameState sampleStart = Some g
         /\ isPlayable g (cardOf spades R9) = true).
Proof.
  destruct C7_isValidMove_at_every_call_site as (H1 & H2 & H3 & H4).
  split; [|split; [|split; [|split]]].
  - apply H1. right. left. reflexivity.
  - destruct (H2 sampleStart _ (cardOf hearts RA) eq_refl) as [Hyes _].
    destruct Hyes as (g' & E & Hd & _).
    + split; [reflexivity | right; left; reflexivity].
    + exists g'. split; [exact E | exact Hd].
  - destruct (H2 sampleStart _ (cardOf spades RK) eq_refl) as [_ Hno].
    apply Hno. intros [_ [H | [H | H]]]; discriminate.
  - destruct (H3 eightOnlyState _ eq_refl eq_refl) as (g' & E & Hplay & _).
    exists g'. split; [exact E|].
    vm_compute in E. injection E as <-. reflexivity.
  - eexists. split; [reflexivity|].
    destruct (H4 sampleStart _ (cardOf spades R9) eq_refl) as [Hrule _].
    apply Hrule. split; [reflexivity | right; right; reflexivity].
Defined.

(* ================================================================== *)
(** ** A blocked turn *)
(* ================================================================== *)

Lemma restart_deals_anew (fresh : list Card) (a : App) (g : GameState) :
  isFreshDeck fresh -> gameState a = Some g -> deck g = [] ->
  initGame fresh a <> a.
Proof.
  intros Hfresh Hg Hd Heq.
  destruct (fresh_rest_has_non_eight fresh Hfresh) as (c & Hc & H8).
  destruct Hfresh as (_ & _ & Hlen).
  destruct (initGameBody_cases fresh)
    as [[Hall _] | (pre & top & post & E & _ & _ & Ed)].
  - exact (H8 (Hall c Hc)).
  - unfold initGame in Heq. rewrite Ed in Heq.
    apply (f_equal gameState) in Heq. rewrite Hg in Heq. simpl in Heq.
    assert (deck g = pre ++ post) as Hdeck
      by (injection Heq as <-; reflexivity).
    assert (List.length (skipn 8 (skipn 8 fresh)) = 36) as Hrest
      by (rewrite !length_skipn; lia).
    rewrite E, length_app in Hrest. simpl in Hrest.
    rewrite Hd in Hdeck. apply (f_equal (@List.length Card)) in Hdeck.
    rewrite length_app in Hdeck. simpl in Hdeck. lia.
Qed.

(** X15. A blocked turn can only be left by a restart.  On the player's
    turn, with an empty deck and no valid card in the player's hand,
    every move that the page offers leaves the state as it is (the draw
    pile is not rendered with its click handler, every card of the hand
    is refused, the suit buttons are not shown, no timer of the computer
    is running): an offered event that changes the state is a click on
    the restart button, and such a click with a fresh deck does change
    it. *)
Lemma blocked_turn_only_restart
      (suits : list Suit) (a : App) (g : GameState) :
  gameState a = Some g ->
  status g = player_turn ->
  deck g = [] ->
  (forall c, In c (playerHand g) ->
             isValidMove c (currentSuit g) (currentRank g) = false) ->
  (forall e, offered suits g e -> pageStep e a <> a ->
             exists fresh, e = Restart fresh)
  /\ (forall o, In o (events suits g) -> pageStep (Move o) a = a)
  /\ (forall fresh, isFreshDeck fresh -> pageStep (Restart fresh) a <> a).
Proof.
  intros Hg Hs Hd Hnone.
  assert (forall o, In o (events suits g) -> step o a = a) as Hidle.
  { intros o Ho. now apply blocked_turn_moves_idle with suits g. }
  split; [|split].
  - intros [o | fresh] Hoff Hchg; [|eauto].
    exfalso. apply Hchg. simpl. now apply Hidle.
  - intros o Ho. simpl. now apply Hidle.
  - intros fresh Hfresh. simpl. now apply restart_deals_anew with g.
Qed.

Lemma blocked_turn_only_restart_witness :
  pageStep (Move (Play (cardOf clubs R2))) (lastCardState [])
  = lastCardState []
  /\ pageStep (Restart sampleDeck) (lastCardState []) <> lastCardState [].
Proof.
  edestruct (blocked_turn_only_restart [hearts; diamonds; clubs; spades]
               (lastCardState []))
    as (_ & Hidle & Hrestart).
  - reflexivity.
  - reflexivity.
  - reflexivity.
  - intros c [<- | []]. reflexivity.
  - split.
    + apply Hidle. simpl. auto.
    + apply Hrestart. apply sampleDeck_fresh.
Defined.
